(** * Ticket triage pipeline: tag extraction, ticket search, relatedness
      fan-out and metadata synthesis

    A shallow embedding of [api/utils/jira_utils.py] and
    [api/utils/model_utils.py], of the REST layer that serves the agent
    ([api/serializers.py], [api/views.py]) and of the client of the user
    interface ([mesop/src/utils/api_utils.py], [mesop/src/utils/config.py]).
    Python strings are [string]s, the ticket
    dictionary is a [gmap string string], exceptions are an explicit
    [result] type, and the calls made to the collaborators (LLM chain,
    ticket tracker) are recorded in a trace.  Calls to the logger have no
    effect on results and are left out, as are the constant headers of the
    HTTP requests. *)

From Stdlib Require Import ZArith Lia Ascii String.
From stdpp Require Import gmap strings list fin_maps.

Open Scope string_scope.
Open Scope list_scope.
Set Warnings "-register-all,-clear-no-such-hyp".

(** ** Python exceptions and fallible computations *)

Inductive exn_kind :=
| RequestException      (* requests.exceptions.RequestException and its subclasses *)
| JiraAPIError
| JiraConfigError
| AttributeError
| TypeError
| OtherException.       (* any other subclass of Exception *)

Global Instance exn_kind_eq_dec : EqDecision exn_kind.
Proof. solve_decision. Defined.

Record exn := mkExn { exn_kind_of : exn_kind; exn_msg : string }.

(** [str(e)] *)
Definition str_exn (e : exn) : string := exn_msg e.

Inductive result (A : Type) : Type :=
| Ok (a : A)
| Err (e : exn).
Arguments Ok {A} a.
Arguments Err {A} e.

Global Instance result_ret : MRet result := fun _ a => Ok a.
Global Instance result_bind : MBind result :=
  fun _ _ f m => match m with Ok a => f a | Err e => Err e end.

(** [try: body except Exception as e: handler e] *)
Definition try_except {A} (body : result A) (handler : exn -> result A) : result A :=
  match body with
  | Ok a => Ok a
  | Err e => handler e
  end.

(** [try: body except K as e: handler e]: only exceptions of class [K]
    are handled, the others propagate. *)
Definition try_except_kind {A} (K : exn_kind) (body : result A)
    (handler : exn -> result A) : result A :=
  match body with
  | Ok a => Ok a
  | Err e => if decide (exn_kind_of e = K) then handler e else Err e
  end.

Module jira_utils.

(** *** Literal search

    [strip_prefix m s] is [Some rest] when [s = m +:+ rest]. *)
Fixpoint strip_prefix (m s : string) : option string :=
  match m, s with
  | EmptyString, _ => Some s
  | String a m', String b s' => if Ascii.eqb a b then strip_prefix m' s' else None
  | String _ _, EmptyString => None
  end.

(** [split_first m s] cuts [s] at the leftmost occurrence of [m]: the text
    before it and the text after it. *)
Fixpoint split_first (m s : string) : option (string * string) :=
  match strip_prefix m s with
  | Some rest => Some (EmptyString, rest)
  | None =>
      match s with
      | EmptyString => None
      | String c s' =>
          match split_first m s' with
          | Some (pre, post) => Some (String c pre, post)
          | None => None
          end
      end
  end.

(** Characters that the [re] module reads as operators; a tag made of
    other characters is matched literally by the pattern built from it. *)
Definition regex_special (c : ascii) : bool :=
  existsb (Ascii.eqb c)
    ["."; "^"; "$"; "*"; "+"; "?"; "{"; "}"; "["; "]"; "\"; "|"; "("; ")"]%char.

Fixpoint regex_plain (tag : string) : bool :=
  match tag with
  | EmptyString => true
  | String c tag' => negb (regex_special c) && regex_plain tag'
  end.

(** The delimiter [<tag>], used both to open and to close a field. *)
Definition marker (tag : string) : string := "<" +:+ tag +:+ ">".

(** [extract_tag_helper(text, tag)]:
    [re.search(f'<{tag}>(.*?)<{tag}>', text, flags=re.DOTALL)] and
    [match.group(1)], or [None].  For a tag without regex operators (all
    tags the program passes: related, user_stories, acceptance_criteria,
    priority, thought) the pattern is the literal marker, a lazy run of
    arbitrary characters, and the literal marker again.  The leftmost
    match starts at the leftmost marker, and its group stops at the first
    marker found after that one. *)
Definition extract_tag_helper (text tag : string) : option string :=
  let m := marker tag in
  match split_first m text with
  | Some (_, rest) =>
      match split_first m rest with
      | Some (body, _) => Some body
      | None => None
      end
  | None => None
  end.

(** The text [a] between an opening and a closing marker. *)
Definition wrap (a tag : string) : string := marker tag +:+ a +:+ marker tag.

(** Some occurrence of [m] in [a +:+ m] begins at an offset inside [a]
    (it may run over into the closing marker). *)
Fixpoint marker_begins_inside (m a : string) : bool :=
  match a with
  | EmptyString => false
  | String c a' =>
      match strip_prefix m (a +:+ m) with
      | Some _ => true
      | None => marker_begins_inside m a'
      end
  end.

(** *** Values decoded from a tracker response

    The fragment of JSON the module reads: strings, [null], arrays and
    objects (ticket keys, summaries and descriptions are strings or
    [null]; numbers and booleans are left out). *)
Inductive json :=
| JNull
| JStr (s : string)
| JArr (items : list json)
| JObj (members : list (string * json)).

(** Truth value of a decoded value ([if not key]). *)
Definition py_truthy (v : json) : bool :=
  match v with
  | JNull => false
  | JStr s => negb (String.eqb s "")
  | JArr items => negb (Nat.eqb (length items) 0)
  | JObj members => negb (Nat.eqb (length members) 0)
  end.

(** Lookup in a decoded object; the decoder keeps the last of several
    bindings of one name. *)
Fixpoint members_get (k : string) (members : list (string * json)) : option json :=
  match members with
  | [] => None
  | (k', v) :: rest =>
      match members_get k rest with
      | Some v' => Some v'
      | None => if String.eqb k k' then Some v else None
      end
  end.

(** [d.get(k, default)]; a value that is not a dictionary has no [get]. *)
Definition py_get (d : json) (k : string) (default : json) : result json :=
  match d with
  | JObj members => Ok (from_option id default (members_get k members))
  | _ => Err (mkExn AttributeError "object has no attribute 'get'")
  end.

(** The distinct names of an object, in order of first appearance. *)
Fixpoint member_names (members : list (string * json)) (seen : list string) : list string :=
  match members with
  | [] => []
  | (k, _) :: rest =>
      if existsb (String.eqb k) seen then member_names rest seen
      else k :: member_names rest (k :: seen)
  end.

Fixpoint chars (s : string) : list string :=
  match s with
  | EmptyString => []
  | String c s' => String c EmptyString :: chars s'
  end.

(** [for x in v]: the items of a list, the characters of a string, the
    names of a dictionary; [None] is not iterable. *)
Definition py_iter (v : json) : result (list json) :=
  match v with
  | JArr items => Ok items
  | JStr s => Ok (JStr <$> chars s)
  | JObj members => Ok (JStr <$> member_names members [])
  | JNull => Err (mkExn TypeError "'NoneType' object is not iterable")
  end.

(** Characters (code points below 256) that [str.strip()] removes. *)
Definition py_isspace (c : ascii) : bool :=
  let n := nat_of_ascii c in
  (Nat.leb 9 n && Nat.leb n 13) || (Nat.leb 28 n && Nat.leb n 32)
  || Nat.eqb n 133 || Nat.eqb n 160.

Fixpoint lstrip (s : string) : string :=
  match s with
  | EmptyString => EmptyString
  | String c s' => if py_isspace c then lstrip s' else s
  end.

Fixpoint rstrip (s : string) : string :=
  match s with
  | EmptyString => EmptyString
  | String c s' =>
      match rstrip s' with
      | EmptyString => if py_isspace c then EmptyString else String c EmptyString
      | r => String c r
      end
  end.

(** [s.strip()] *)
Definition py_strip (s : string) : string := rstrip (lstrip s).

(** *** HTTP layer *)

(** The module-level settings read from the environment
    ([os.environ.get]: absent variables are [None]). *)
Record settings := mkSettings {
  JIRA_INSTANCE_URL : option string;
  PROJECT_KEY : option string;
  JIRA_USERNAME : option string;
  JIRA_API_TOKEN : option string
}.

(** Truth value of an optional string: [None] and the empty string are false. *)
Definition truthy (o : option string) : bool :=
  match o with
  | Some (String _ _) => true
  | _ => false
  end.

(** How an optional string prints inside an f-string. *)
Definition fmt (o : option string) : string := default "None" o.

Record HTTPBasicAuth := mkAuth { username : option string; password : option string }.

Record request := mkRequest {
  req_method : string;
  req_url : string;
  req_auth : HTTPBasicAuth;
  req_json : option json;
  req_timeout : Z
}.

(** A response: its status and its decoded body ([None] when the body is
    not JSON, in which case [response.json()] raises). *)
Record response := mkResponse {
  status_code : Z;
  body : option json
}.

Section http.
(** The tracker as seen through [requests.request]: it answers or raises
    (connection refused, timeout, ...). *)
Variable requests_request : request -> result response.
(** [urllib.parse.urljoin]. *)
Variable urljoin : string -> string -> string.
(** The text of the [HTTPError] that [raise_for_status] raises. *)
Variable http_error_text : response -> string.
(** [str()] of a decoded list or dictionary. *)
Variable py_repr : json -> string.
Variable env : settings.

(** [response.raise_for_status()]: an [HTTPError], which is a
    [RequestException], for a 4xx or 5xx status. *)
Definition raise_for_status (r : response) : result unit :=
  if (400 <=? status_code r)%Z && (status_code r <? 600)%Z
  then Err (mkExn RequestException (http_error_text r))
  else Ok tt.

(** [response.json()] *)
Definition response_json (r : response) : result json :=
  match body r with
  | Some v => Ok v
  | None => Err (mkExn RequestException "Expecting value")
  end.

Definition _get_auth : result HTTPBasicAuth :=
  if negb (truthy (JIRA_USERNAME env)) || negb (truthy (JIRA_API_TOKEN env))
  then Err (mkExn JiraConfigError "Jira username or API token not configured")
  else Ok (mkAuth (JIRA_USERNAME env) (JIRA_API_TOKEN env)).

Definition _make_request (method endpoint : string) (data : option json)
    (timeout : Z) : result response :=
  if negb (truthy (JIRA_INSTANCE_URL env))
  then Err (mkExn JiraConfigError "Jira instance URL not configured")
  else
    let url := urljoin (fmt (JIRA_INSTANCE_URL env)) endpoint in
    auth ← _get_auth;
    try_except_kind RequestException
      (response ← requests_request (mkRequest method url auth data timeout);
       _ ← raise_for_status response;
       Ok response)
      (fun e => Err (mkExn JiraAPIError ("Jira API request failed: " +:+ str_exn e))).

(** How a summary or description prints inside an f-string. *)
Definition py_str (v : json) : string :=
  match v with
  | JStr s => s
  | JNull => "None"
  | _ => py_repr v
  end.

Definition parse_jira_issue_fields (data : json) : result (json * string) :=
  try_except
    (key ← py_get data "key" JNull;
     if negb (py_truthy key)
     then Err (mkExn JiraAPIError "Missing 'key' field in Jira response")
     else
       fields ← py_get data "fields" (JObj []);
       summary ← py_get fields "summary" (JStr "");
       description ← py_get fields "description" (JStr "");
       let summary_description := py_strip (py_str summary +:+ " " +:+ py_str description) in
       Ok (key, summary_description))
    (fun e => Err (mkExn JiraAPIError ("Failed to parse Jira issue fields: " +:+ str_exn e))).

(** [tickets[key] = description]: a string is stored, a list or a
    dictionary is not hashable.  ([None] cannot reach this point: the
    parser rejects a key that is not truthy.) *)
Definition dict_setitem (tickets : gmap string string) (key : json)
    (description : string) : result (gmap string string) :=
  match key with
  | JStr s => Ok (<[s := description]> tickets)
  | _ => Err (mkExn TypeError "unhashable type")
  end.

(** The loop of [get_all_tickets] over the issues of the response: an
    issue that does not parse is skipped. *)
Fixpoint collect_tickets (issues : list json) (tickets : gmap string string)
    : result (gmap string string) :=
  match issues with
  | [] => Ok tickets
  | issue :: rest =>
      tickets' ← try_except_kind JiraAPIError
                   ('(key, description) ← parse_jira_issue_fields issue;
                    dict_setitem tickets key description)
                   (fun e => Ok tickets);   (* log a warning, continue *)
      collect_tickets rest tickets'
  end.

Definition get_all_tickets : result (option (gmap string string)) :=
  try_except
    (let jql := "project=" +:+ fmt (PROJECT_KEY env) +:+ " AND resolution=unresolved" in
     let endpoint := "/rest/api/2/search?jql=" +:+ jql +:+ "&maxResults=1000" in
     response ← _make_request "GET" endpoint None 30;
     data ← response_json response;
     issues ← py_get data "issues" (JArr []);
     items ← py_iter issues;
     tickets ← collect_tickets items ∅;
     Ok (Some tickets))
    (fun e => Ok None).

(** [link_jira_issue(inward_issue_key, outward_issue_key, link_type)];
    the manager leaves [link_type] at its default, ['Relates']. *)
Definition link_jira_issue (inward_issue_key outward_issue_key link_type : string)
    : result bool :=
  try_except
    (let data :=
       JObj [("inwardIssue", JObj [("key", JStr inward_issue_key)]);
             ("outwardIssue", JObj [("key", JStr outward_issue_key)]);
             ("type", JObj [("name", JStr link_type)])] in
     response ← _make_request "POST" "/rest/api/2/issueLink" (Some data) 30;
     if (status_code response =? 201)%Z then Ok true else Ok false)
    (fun e => Err (mkExn JiraAPIError ("Failed to link issues: " +:+ str_exn e))).

Definition get_ticket_data (key : string) : result (option (json * string)) :=
  try_except
    (let endpoint := "/rest/agile/1.0/issue/" +:+ key in
     response ← _make_request "GET" endpoint None 30;
     data ← response_json response;
     ticket ← parse_jira_issue_fields data;
     Ok (Some ticket))
    (fun e => Ok None).

Definition add_jira_comment (key comment : string) : result bool :=
  try_except
    (let data := JObj [("body", JStr comment)] in
     let endpoint := "/rest/api/2/issue/" +:+ key +:+ "/comment" in
     response ← _make_request "POST" endpoint (Some data) 30;
     if (status_code response =? 201)%Z then Ok true else Ok false)
    (fun e => Err (mkExn JiraAPIError ("Failed to add comment: " +:+ str_exn e))).

Definition validate_jira_config : result bool :=
  try_except
    (if negb (truthy (JIRA_INSTANCE_URL env) && truthy (PROJECT_KEY env)
              && truthy (JIRA_USERNAME env) && truthy (JIRA_API_TOKEN env))
     then Ok false
     else
       response ← _make_request "GET" "/rest/api/2/myself" None 30;
       if (status_code response =? 200)%Z then Ok true else Ok false)
    (fun e => Ok false).
End http.

End jira_utils.

Module model_utils.

(** *** LangChain objects *)

Record OpenAI := mkOpenAI { temperature : Z }.

Inductive role := system | human | ai.

(** The parts of a chat prompt template: a message template, or a block of
    few-shot examples rendered through an example prompt. *)
Inductive template_part :=
| Message (r : role) (text : string)
| FewShotChatMessagePromptTemplate
    (example_prompt : list (role * string)) (examples : list (string * string)).

Definition ChatPromptTemplate := list template_part.

(** [prompt | llm] *)
Record chain := pipe { chain_prompt : ChatPromptTemplate; chain_llm : OpenAI }.

(** *** [LLMTask] objects

    Both task objects are created once and then shared by every triage run
    and every worker thread, so they live in a store and the code holds
    references to them. *)
Record LLMTask := mkLLMTask {
  system_prompt : string;
  examples : list (string * string);
  llm : OpenAI;
  _chain : option chain
}.

Inductive task_ref := linking_ref | product_ref.

Record heap := mkHeap { linking_obj : LLMTask; product_obj : LLMTask }.

Definition deref (h : heap) (r : task_ref) : LLMTask :=
  match r with
  | linking_ref => linking_obj h
  | product_ref => product_obj h
  end.

Definition with_chain (t : LLMTask) (c : chain) : LLMTask :=
  mkLLMTask (system_prompt t) (examples t) (llm t) (Some c).

(** [r._chain = c] *)
Definition store_chain (r : task_ref) (c : chain) (h : heap) : heap :=
  match r with
  | linking_ref => mkHeap (with_chain (linking_obj h) c) (product_obj h)
  | product_ref => mkHeap (linking_obj h) (with_chain (product_obj h) c)
  end.

(** [LLMTask.__init__] *)
Definition LLMTask_init (system_prompt : string) (examples : list (string * string))
    (llm : OpenAI) : LLMTask :=
  mkLLMTask system_prompt examples llm None.

(** The attributes of the manager that triage reads; they are assigned
    during construction only. *)
Record JiraAgentManager := mkManager {
  linking_model : option task_ref;
  product_model : option task_ref
}.

(** *** Calls to the collaborators

    The chain invocation and the four operations of [jira_utils] used by
    the manager.  A run records them in call order.  An invocation is
    recorded with the task whose [run_llm] makes it. *)
Inductive call :=
| Invoke (r : task_ref) (c : chain) (input : string)   (* r._chain.invoke({"input": input}) *)
| GetAllTickets
| GetTicketData (key : string)
| LinkJiraIssue (inward_issue_key outward_issue_key : string)
| AddJiraComment (key comment : string).

Definition answer (c : call) : Type :=
  match c with
  | Invoke _ _ _ => option string
  | GetAllTickets => option (gmap string string)
  | GetTicketData _ => option (string * string)
  | LinkJiraIssue _ _ => bool
  | AddJiraComment _ _ => bool
  end.

(** A stubbed environment: every call returns a value or raises. *)
Definition world := forall c : call, result (answer c).

(** *** Programs

    Code that worker threads execute is a tree of atomic actions, so that
    a thread pool can interleave several of them: reading the attributes
    of a task object, assigning its [_chain], calling a collaborator. *)
Inductive prog (A : Type) : Type :=
| Ret (a : A)
| Raise (e : exn)
| Load (r : task_ref) (k : LLMTask -> prog A)
| StoreChain (r : task_ref) (c : chain) (k : prog A)
| Call (c : call) (k : result (answer c) -> prog A).
Arguments Ret {A} a.
Arguments Raise {A} e.
Arguments Load {A} r k.
Arguments StoreChain {A} r c k.
Arguments Call {A} c k.

Fixpoint prog_bind {A B} (f : A -> prog B) (p : prog A) : prog B :=
  match p with
  | Ret a => f a
  | Raise e => Raise e
  | Load r k => Load r (fun t => prog_bind f (k t))
  | StoreChain r c k => StoreChain r c (prog_bind f k)
  | Call c k => Call c (fun x => prog_bind f (k x))
  end.

Global Instance prog_mret : MRet prog := fun _ a => Ret a.
Global Instance prog_mbind : MBind prog := fun _ _ f p => prog_bind f p.

(** [try: p except Exception as e: handler e] *)
Fixpoint try_prog {A} (p : prog A) (handler : exn -> prog A) : prog A :=
  match p with
  | Ret a => Ret a
  | Raise e => handler e
  | Load r k => Load r (fun t => try_prog (k t) handler)
  | StoreChain r c k => StoreChain r c (try_prog k handler)
  | Call c k => Call c (fun x => try_prog (k x) handler)
  end.

(** A call whose exception propagates to the caller. *)
Definition perform (c : call) : prog (answer c) :=
  Call c (fun x => match x with Ok v => Ret v | Err e => Raise e end).

(** Reading [self], and the assignment [self._chain = c]. *)
Definition load (r : task_ref) : prog LLMTask := Load r Ret.
Definition assign_chain (r : task_ref) (c : chain) : prog unit := StoreChain r c (Ret tt).

(** *** [LLMTask] methods *)

Definition construct_prompt (self : task_ref) : prog ChatPromptTemplate :=
  t ← load self;
  let example_prompt := [(human, "{input}"); (ai, "{output}")] in
  let few_shot_prompt := FewShotChatMessagePromptTemplate example_prompt (examples t) in
  Ret [Message system (system_prompt t); few_shot_prompt; Message human "{input}"].

Definition run_llm (self : task_ref) (input_text : string) : prog (option string) :=
  try_prog
    (t ← load self;
     _ ← match _chain t with
         | None =>
             prompt ← construct_prompt self;
             t' ← load self;
             assign_chain self (pipe prompt (llm t'))
         | Some _ => Ret tt
         end;
     t'' ← load self;
     match _chain t'' with
     | Some c => perform (Invoke self c input_text)
     | None => Raise (mkExn AttributeError "'NoneType' object has no attribute 'invoke'")
     end)
    (fun e => Ret None).

(** *** [JiraAgentManager] methods run by worker threads *)

(** Truth value of an optional string ([if not llm_result]). *)
Definition nonempty (o : option string) : option string :=
  match o with
  | Some (String c s) => Some (String c s)
  | _ => None
  end.

Definition _llm_check_ticket_match (self : JiraAgentManager) (ticket1 ticket2 : string)
    : prog bool :=
  try_prog
    (match linking_model self with
     | None => Ret false
     | Some linking_model =>
         let prompt := "<ticket1>" +:+ ticket1 +:+ "<ticket1><ticket2>" +:+ ticket2 +:+ "<ticket2>" in
         llm_result ← run_llm linking_model prompt;
         match nonempty llm_result with
         | None => Ret false
         | Some llm_result =>
             let result := jira_utils.extract_tag_helper llm_result "related" in
             match nonempty result with
             | Some result => Ret (String.eqb result "True")
             | None => Ret false
             end
         end
     end)
    (fun e => Ret false).

Definition _check_issue_and_link_helper (self : JiraAgentManager)
    (args : string * string * string * string) : prog unit :=
  let '(key, data, primary_issue_key, primary_issue_data) := args in
  try_prog
    (if negb (String.eqb key primary_issue_key)
     then
       related ← _llm_check_ticket_match self primary_issue_data data;
       if related : bool
       then _ ← perform (LinkJiraIssue primary_issue_key key); Ret tt
       else Ret tt
     else Ret tt)
    (fun e => Ret tt).

Definition _generate_ticket_metadata (self : JiraAgentManager)
    (primary_issue_key primary_issue_data : string) : prog unit :=
  try_prog
    (match product_model self with
     | None => Ret tt
     | Some product_model =>
         let prompt := "<description>" +:+ primary_issue_data +:+ "<description>" in
         llm_result ← run_llm product_model prompt;
         match nonempty llm_result with
         | None => Ret tt
         | Some llm_result =>
             let user_stories :=
               default "" (nonempty (jira_utils.extract_tag_helper llm_result "user_stories")) in
             let acceptance_criteria :=
               default "" (nonempty (jira_utils.extract_tag_helper llm_result "acceptance_criteria")) in
             let priority :=
               default "" (nonempty (jira_utils.extract_tag_helper llm_result "priority")) in
             let thought :=
               default "" (nonempty (jira_utils.extract_tag_helper llm_result "thought")) in
             let comment :=
               "user_stories: " +:+ user_stories +:+ "
" +:+ "acceptance_criteria: " +:+ acceptance_criteria +:+ "
" +:+ "priority: " +:+ priority +:+ "
" +:+ "thought: " +:+ thought in
             _ ← perform (AddJiraComment primary_issue_key comment);
             Ret tt
         end
     end)
    (fun e => Ret tt).

(** *** Execution *)

Section execution.
Variable W : world.

(** One atomic action of a program: the program that remains, the
    store, and the call made, if any. *)
Definition step {A} (p : prog A) (h : heap) : prog A * heap * list call :=
  match p with
  | Ret a => (Ret a, h, [])
  | Raise e => (Raise e, h, [])
  | Load r k => (k (deref h r), h, [])
  | StoreChain r c k => (k, store_chain r c h, [])
  | Call c k => (k (W c), h, [c])
  end.

(** A program executed by one thread without interruption: its outcome,
    the final store, and the calls it made. *)
Fixpoint run {A} (p : prog A) (h : heap) : result A * heap * list call :=
  match p with
  | Ret a => (Ok a, h, [])
  | Raise e => (Err e, h, [])
  | Load r k => run (k (deref h r)) h
  | StoreChain r c k => run k (store_chain r c h)
  | Call c k => let '(x, h', tr) := run (k (W c)) h in (x, h', c :: tr)
  end.

(** **** The thread pool

    [with ThreadPoolExecutor(...) as executor: executor.map(fn, args)]
    submits one task per argument at once and, on leaving the block,
    waits until every task has finished ([shutdown(wait=True)]); the
    results are never read, so an exception of a task stays in its
    future.  Which task advances next is decided by the threads: the
    schedule lists, action by action, the index of the task that moves.
    When the schedule is used up the tasks still unfinished are run to
    completion, so every schedule describes a complete execution and
    every interleaving of the tasks is described by some schedule (the
    size of the pool only limits which of them can occur). *)
Fixpoint pool_steps (sched : list nat) (tasks : list (prog unit)) (h : heap)
    : list (prog unit) * heap * list call :=
  match sched with
  | [] => (tasks, h, [])
  | i :: sched' =>
      match tasks !! i with
      | Some p =>
          let '(p', h', tr) := step p h in
          let '(tasks', h'', tr') := pool_steps sched' (<[i := p']> tasks) h' in
          (tasks', h'', tr ++ tr')
      | None => pool_steps sched' tasks h
      end
  end.

Fixpoint pool_join (tasks : list (prog unit)) (h : heap) : heap * list call :=
  match tasks with
  | [] => (h, [])
  | p :: tasks' =>
      let '(_, h', tr) := run p h in
      let '(h'', tr') := pool_join tasks' h' in
      (h'', tr ++ tr')
  end.

(** The code of the orchestrating thread: a function of the store that
    yields an outcome, the new store, and the calls made. *)
Definition M (A : Type) : Type := heap -> result A * heap * list call.

Definition M_ret {A} (a : A) : M A := fun h => (Ok a, h, []).

Definition M_bind {A B} (m : M A) (f : A -> M B) : M B :=
  fun h =>
    match m h with
    | (Ok a, h', tr) => let '(y, h'', tr') := f a h' in (y, h'', tr ++ tr')
    | (Err e, h', tr) => (Err e, h', tr)
    end.

Definition M_try {A} (m : M A) (handler : exn -> M A) : M A :=
  fun h =>
    match m h with
    | (Ok a, h', tr) => (Ok a, h', tr)
    | (Err e, h', tr) => let '(y, h'', tr') := handler e h' in (y, h'', tr ++ tr')
    end.

Definition executor_map {X} (sched : list nat) (fn : X -> prog unit) (args : list X)
    : M unit :=
  fun h =>
    let '(tasks, h', tr) := pool_steps sched (fn <$> args) h in
    let '(h'', tr') := pool_join tasks h' in
    (Ok tt, h'', tr ++ tr').

(** *** [JiraAgentManager] methods run by the orchestrating thread *)

(** The tasks are listed in the order of [map_to_list]; which of them
    runs when is the schedule's choice. *)
Definition _find_related_tickets (sched : list nat) (self : JiraAgentManager)
    (primary_issue_key primary_issue_data : string) (issues : gmap string string)
    : M unit :=
  M_try
    (let args :=
       (fun '(key, data) => (key, data, primary_issue_key, primary_issue_data))
         <$> map_to_list issues in
     executor_map sched (_check_issue_and_link_helper self) args)
    (fun e => M_ret tt).

(** Truth value of the ticket dictionary ([if not all_tickets]):
    [None] and the empty dictionary are false. *)
Definition nonempty_dict (o : option (gmap string string)) : option (gmap string string) :=
  match o with
  | Some d => if decide (d = ∅) then None else Some d
  | None => None
  end.

Definition _triage_tool (sched : list nat) (self : JiraAgentManager)
    (ticket_number : string) : M string :=
  M_try
    (M_bind (run (perform GetAllTickets)) (fun all_tickets =>
     match nonempty_dict all_tickets with
     | None => M_ret "No tickets found for triage"
     | Some all_tickets =>
         M_bind (run (perform (GetTicketData ticket_number))) (fun primary_ticket_data =>
         match primary_ticket_data with
         | None => M_ret ("Could not retrieve data for ticket: " +:+ ticket_number)
         | Some (primary_issue_key, primary_issue_data) =>
             M_bind (_find_related_tickets sched self primary_issue_key
                       primary_issue_data all_tickets) (fun _ =>
             M_bind (run (_generate_ticket_metadata self primary_issue_key
                            primary_issue_data)) (fun _ =>
             M_ret "Task complete"))
         end)
     end))
    (fun e => M_ret ("Error during triage: " +:+ str_exn e)).
End execution.

End model_utils.

(** ** The REST layer: [api/serializers.py] and [api/views.py] *)

Module serializers.
Import jira_utils.

(** The outcome of a validation: the validated value, or the detail of
    the [ValidationError] raised. *)
Inductive validation (A : Type) : Type :=
| Valid (a : A)
| ValidationError (detail : string).
Arguments Valid {A} a.
Arguments ValidationError {A} detail.

(** [len(value)] *)
Definition len (value : string) : Z := Z.of_nat (String.length value).

(** [ModelRequestSerializer.validate_request] *)
Definition validate_request (value : string) : validation string :=
  if String.eqb value "" || String.eqb (py_strip value) ""
  then ValidationError "Request cannot be empty"
  else if (10000 <? len value)%Z
  then ValidationError "Request is too long (max 10KB)"
  else Valid (py_strip value).

(** [text[:100] + "..." if len(text) > 100 else text], the body of
    [get_request_preview] and [get_response_preview]. *)
Definition preview (text : string) : string :=
  if (100 <? len text)%Z then substring 0 100 text +:+ "..." else text.

(** The fields of a stored [ModelRequest] that the previews read. *)
Record ModelRequest := mkModelRequest { request : string; response : string }.

Definition get_request_preview (obj : ModelRequest) : string := preview (request obj).
Definition get_response_preview (obj : ModelRequest) : string := preview (response obj).

End serializers.

Module views.
Import jira_utils serializers.

(** The bodies of the responses of [JiraAgentApiView.post]. *)
Inductive payload :=
| InvalidRequestData (details : string)
| AgentReturnedEmpty
| InvalidResponseData
| Success (output : json) (request_id : Z)
| InternalServerError.

Record Response := mkHttpResponse { data : payload; status : Z }.

(** The calls of the view: to the agent, and to the database. *)
Inductive event :=
| AgentInvoke (input : string)             (* model_utils.agent.invoke({"input": input}) *)
| Save (request : string) (response : json). (* ModelRequest(request, response).save() *)

Section post.
(** What the framework does with the [request] field of the posted data
    before it calls [validate_request] (a missing field and a blank
    string are refused there): the value it passes on, or its error. *)
Variable request_field : json -> validation string.
(** [model_utils.agent]: [None] when the manager could not be built;
    else its [invoke], which returns a dictionary or [None], or raises. *)
Variable agent : option (string -> result (option (list (string * json)))).
(** [ModelResponseSerializer(data={"response": output}).is_valid()] *)
Variable response_is_valid : json -> bool.
(** [model_request.save()]: the id of the stored record, or an exception. *)
Variable save : string -> json -> result Z.

(** [request_serializer.is_valid()], with the validated [request]. *)
Definition is_valid (posted : json) : validation string :=
  match request_field posted with
  | Valid value => validate_request value
  | ValidationError detail => ValidationError detail
  end.

Definition internal_server_error : Response := mkHttpResponse InternalServerError 500.

Definition post (posted : json) : Response * list event :=
  match is_valid posted with
  | ValidationError details => (mkHttpResponse (InvalidRequestData details) 400, [])
  | Valid user_request =>
      match agent with
      | None => (internal_server_error, [])   (* AttributeError, caught *)
      | Some invoke =>
          match invoke user_request with
          | Err e => (internal_server_error, [AgentInvoke user_request])
          | Ok agent_response =>
              match agent_response with
              | None | Some [] =>
                  (mkHttpResponse AgentReturnedEmpty 500, [AgentInvoke user_request])
              | Some members =>
                  match members_get "output" members with
                  | None => (mkHttpResponse AgentReturnedEmpty 500, [AgentInvoke user_request])
                  | Some output =>
                      if negb (response_is_valid output)
                      then (mkHttpResponse InvalidResponseData 500,
                            [AgentInvoke user_request])
                      else
                        match save user_request output with
                        | Err e =>
                            (internal_server_error,
                             [AgentInvoke user_request; Save user_request output])
                        | Ok request_id =>
                            (mkHttpResponse (Success output request_id) 200,
                             [AgentInvoke user_request; Save user_request output])
                        end
                  end
              end
          end
      end
  end.
End post.

End views.

(** ** The client of the user interface: [mesop/src/utils/config.py] and
    [mesop/src/utils/api_utils.py] *)

Module config.

(** The attributes of [AppConfig] that the client reads. *)
Record AppConfig := mkAppConfig { django_url : string }.

(** [endpoint.lstrip('/')] *)
Fixpoint lstrip_slash (endpoint : string) : string :=
  match endpoint with
  | EmptyString => EmptyString
  | String c rest => if Ascii.eqb c "/" then lstrip_slash rest else endpoint
  end.

Definition get_django_api_url (self : AppConfig) (endpoint : string) : string :=
  django_url self +:+ "api/" +:+ lstrip_slash endpoint.

End config.

Module api_utils.
Import jira_utils config.

Record APIClient := mkAPIClient { timeout : Z; max_retries : Z; client_config : AppConfig }.

(** The arguments of [session.request]. *)
Record session_call := mkSessionCall {
  call_method : string;
  call_url : string;
  call_json : option json;
  call_timeout : Z;
  call_params : list (string * Z)
}.

(** What [session.request] does on one attempt. *)
Inductive attempt_result :=
| Responds (r : response)
| RaisesTimeout                            (* requests.exceptions.Timeout *)
| RaisesRequestException (msg : string)    (* another RequestException, with its str() *)
| RaisesOther (e : exn).                   (* an exception that is not a RequestException *)

(** How [_make_request] ends: it returns a response, or [None] when the
    loop ends without a return; it raises [APIError]; or an exception
    that it does not handle propagates. *)
Inductive request_outcome :=
| Returns (r : option response)
| RaisesAPIError (msg : string)
| Propagates (e : exn).

(** What the client does to the outside: requests, and pauses. *)
Inductive action :=
| Request (attempt : Z) (c : session_call)
| Sleep (seconds : Z).

Section client.
(** The backend as seen through [session.request]: the outcome of the
    attempt with the given number (from 0) of one [_make_request]. *)
Variable session_request : nat -> session_call -> attempt_result.
Variable http_error_text : response -> string.
Variable py_repr : json -> string.

(** [except Timeout] *)
Definition on_timeout (self : APIClient) (attempt : Z)
    (next_attempts : request_outcome * list action) : request_outcome * list action :=
  if (attempt =? max_retries self - 1)%Z
  then (RaisesAPIError "Request timed out after all retry attempts", [])
  else next_attempts.

(** [except RequestException as e] *)
Definition on_request_exception (self : APIClient) (attempt : Z) (msg : string)
    (next_attempts : request_outcome * list action) : request_outcome * list action :=
  if (attempt =? max_retries self - 1)%Z
  then (RaisesAPIError ("Request failed after all retry attempts: " +:+ msg), [])
  else let '(o, tr) := next_attempts in (o, Sleep (2 ^ attempt) :: tr).

(** The iterations of [for attempt in range(self.max_retries)] that are
    left, [remaining] of them, from number [attempt] on. *)
Fixpoint attempts (self : APIClient) (c : session_call) (remaining : nat) (attempt : Z)
    : request_outcome * list action :=
  match remaining with
  | O => (Returns None, [])
  | S remaining' =>
      let next_attempts := attempts self c remaining' (attempt + 1) in
      let '(o, tr) :=
        match session_request (Z.to_nat attempt) c with
        | Responds r =>
            match raise_for_status http_error_text r with
            | Ok _ => (Returns (Some r), [])
            | Err e => on_request_exception self attempt (str_exn e) next_attempts
            end
        | RaisesTimeout => on_timeout self attempt next_attempts
        | RaisesRequestException msg => on_request_exception self attempt msg next_attempts
        | RaisesOther e => (Propagates e, [])
        end in
      (o, Request attempt c :: tr)
  end.

Definition _make_request (self : APIClient) (method endpoint : string)
    (data : option json) (params : list (string * Z)) : request_outcome * list action :=
  let url := get_django_api_url (client_config self) endpoint in
  attempts self (mkSessionCall method url data (timeout self) params)
    (Z.to_nat (max_retries self)) 0.


End client.

End api_utils.

Import jira_utils model_utils.

(** * Vocabulary of the properties *)

(** The settings needed to send a request are present. *)
Definition configured (env : settings) : Prop :=
  truthy (JIRA_INSTANCE_URL env) = true /\
  truthy (JIRA_USERNAME env) = true /\
  truthy (JIRA_API_TOKEN env) = true.

(** An HTTP error status, for which [raise_for_status] raises. *)
Definition error_status (r : response) : Prop :=
  (400 <= status_code r < 600)%Z.

(** Sample stubs of the transport and of the library functions. *)
Definition sample_env : settings :=
  mkSettings (Some "https://tracker.example") (Some "OPS") (Some "bot") (Some "token").

Definition tracker_down : request -> result response :=
  fun _ => Err (mkExn RequestException "Connection refused").

Definition tracker_answers (r : response) : request -> result response :=
  fun _ => Ok r.

Definition join_url (base endpoint : string) : string := base +:+ endpoint.

Definition error_text (r : response) : string := "HTTP error".

Definition repr_stub (v : json) : string := "[...]".

(** A search result with two well-formed issues and one without a key. *)
Definition sample_search_body : json :=
  JObj [("issues",
         JArr [JObj [("key", JStr "OPS-1");
                     ("fields", JObj [("summary", JStr "Login"); ("description", JNull)])];
               JObj [("fields", JObj [("summary", JStr "No key")])];
               JObj [("key", JStr "OPS-2");
                     ("fields", JObj [("summary", JStr " Dark mode ");
                                      ("description", JStr "for the editor ")])]])].

(** **** Shared task objects over time

    The chain that [construct_prompt] and [run_llm] build for a task, and
    the chain a task invokes: its [_chain] when set, else the one built. *)
Definition built_chain (t : LLMTask) : chain :=
  pipe [Message system (system_prompt t);
        FewShotChatMessagePromptTemplate [(human, "{input}"); (ai, "{output}")] (examples t);
        Message human "{input}"]
       (llm t).

Definition effective_chain (t : LLMTask) : chain := default (built_chain t) (_chain t).

(** [task_le t t']: [t'] is a later state of the task object [t]: same
    prompt, examples and model, same chain to invoke, and a [_chain] that
    was set is still set. *)
Definition task_le (t t' : LLMTask) : Prop :=
  system_prompt t = system_prompt t' /\
  examples t = examples t' /\
  llm t = llm t' /\
  effective_chain t = effective_chain t' /\
  (_chain t <> None -> _chain t' <> None).

Definition heap_le (h h' : heap) : Prop := forall r, task_le (deref h r) (deref h' r).

(** **** A program logic that tolerates interference

    [wp W p h Q]: whenever [p] runs from a store that is a later state of
    [h], and other threads move the store to later states between the
    actions of [p], then [p] itself only moves the store to later states
    and, when it finishes, [Q] holds of its outcome, of a store of which
    the final store is a later state, and of the calls [p] made. *)
Fixpoint wp (W : world) {A} (p : prog A) (h : heap)
    (Q : result A -> heap -> list call -> Prop) : Prop :=
  match p with
  | Ret a => Q (Ok a) h []
  | Raise e => Q (Err e) h []
  | Load r k => forall h', heap_le h h' -> wp W (k (deref h' r)) h' Q
  | StoreChain r c k =>
      forall h', heap_le h h' ->
        heap_le h' (store_chain r c h') /\ wp W k (store_chain r c h') Q
  | Call c k => wp W (k (W c)) h (fun x h' evs => Q x h' (c :: evs))
  end.

(** **** Counting calls in a trace *)
Fixpoint count_calls (f : call -> bool) (tr : list call) : nat :=
  match tr with
  | [] => 0
  | c :: tr' => (if f c then 1 else 0) + count_calls f tr'
  end.

Definition is_link (a b : string) (c : call) : bool :=
  match c with
  | LinkJiraIssue x y => String.eqb x a && String.eqb y b
  | _ => false
  end.

Definition is_any_link (c : call) : bool :=
  match c with LinkJiraIssue _ _ => true | _ => false end.

Definition is_comment (c : call) : bool :=
  match c with AddJiraComment _ _ => true | _ => false end.

Definition task_ref_eqb (r r' : task_ref) : bool :=
  match r, r' with
  | linking_ref, linking_ref | product_ref, product_ref => true
  | _, _ => false
  end.

(** An invocation of the chain of task [r]. *)
Definition is_invoke_on (r : task_ref) (c : call) : bool :=
  match c with Invoke r' _ _ => task_ref_eqb r r' | _ => false end.

(** **** Outcome, store and calls of a run *)
Definition outcome {A} (x : result A * heap * list call) : result A := x.1.1.
Definition final_heap {A} (x : result A * heap * list call) : heap := x.1.2.
Definition calls {A} (x : result A * heap * list call) : list call := x.2.

(** The verdict of the relatedness classifier on two ticket texts. *)
Definition reports_related (W : world) (self : JiraAgentManager) (h : heap)
    (ticket1 ticket2 : string) : bool :=
  match outcome (run W (_llm_check_ticket_match self ticket1 ticket2) h) with
  | Ok b => b
  | Err _ => false
  end.

(** The candidates that the classifier reports as related to the target:
    the keys of the corpus other than the target key whose text gets the
    verdict "related". *)
Definition related_set (W : world) (self : JiraAgentManager) (h : heap)
    (pk pd : string) (corpus : gmap string string) : gset string :=
  dom (filter (fun kd => kd.1 <> pk /\ reports_related W self h pd kd.2 = true) corpus).

(** The arguments of the tasks that [_find_related_tickets] submits, and
    the calls that one task makes when it runs alone. *)
Definition task_args (pk pd : string) (corpus : gmap string string)
    : list (string * string * string * string) :=
  (fun '(key, data) => (key, data, pk, pd)) <$> map_to_list corpus.

Definition task_calls (W : world) (self : JiraAgentManager) (h : heap)
    (args : string * string * string * string) : list call :=
  calls (run W (_check_issue_and_link_helper self args) h).

(** The manager as [_load_configuration] leaves it: one task object per
    model. *)
Definition initialized (self : JiraAgentManager) : Prop :=
  linking_model self = Some linking_ref /\ product_model self = Some product_ref.

(** What [run_llm] returns for an input: the answer of the chain, or
    [None] when the chain raises. *)
Definition llm_output (W : world) (h : heap) (r : task_ref) (input : string) : option string :=
  match W (Invoke r (effective_chain (deref h r)) input) with
  | Ok v => v
  | Err _ => None
  end.

(** The prompts that the manager builds. *)
Definition relatedness_prompt (ticket1 ticket2 : string) : string :=
  "<ticket1>" +:+ ticket1 +:+ "<ticket1><ticket2>" +:+ ticket2 +:+ "<ticket2>".

Definition description_prompt (description : string) : string :=
  "<description>" +:+ description +:+ "<description>".

(** The verdict read off an output of the model. *)
Definition verdict_of (out : option string) : bool :=
  match nonempty out with
  | Some s => bool_decide (extract_tag_helper s "related" = Some "True")
  | None => false
  end.

(** The calls of one relatedness check, and of the task for one ticket. *)
Definition check_calls (self : JiraAgentManager) (h : heap) (ticket1 ticket2 : string)
    : list call :=
  match linking_model self with
  | Some r => [Invoke r (effective_chain (deref h r)) (relatedness_prompt ticket1 ticket2)]
  | None => []
  end.

Definition check_verdict (W : world) (self : JiraAgentManager) (h : heap)
    (ticket1 ticket2 : string) : bool :=
  match linking_model self with
  | Some r => verdict_of (llm_output W h r (relatedness_prompt ticket1 ticket2))
  | None => false
  end.

Definition helper_calls (W : world) (self : JiraAgentManager) (h : heap)
    (args : string * string * string * string) : list call :=
  let '(key, data, pk, pd) := args in
  if String.eqb key pk then []
  else check_calls self h pd data ++
       (if check_verdict W self h pd data then [LinkJiraIssue pk key] else []).

(** The value of a tag, or the empty string. *)
Definition tag_or_empty (out tag : string) : string :=
  default "" (extract_tag_helper out tag).

Definition four_line_comment (user_stories acceptance_criteria priority thought : string)
    : string :=
  "user_stories: " +:+ user_stories +:+ "
acceptance_criteria: " +:+ acceptance_criteria +:+ "
priority: " +:+ priority +:+ "
thought: " +:+ thought.

Definition metadata_calls (W : world) (self : JiraAgentManager) (h : heap)
    (pk pd : string) : list call :=
  match product_model self with
  | Some r =>
      Invoke r (effective_chain (deref h r)) (description_prompt pd) ::
      match nonempty (llm_output W h r (description_prompt pd)) with
      | Some out =>
          [AddJiraComment pk
             (four_line_comment (tag_or_empty out "user_stories")
                (tag_or_empty out "acceptance_criteria")
                (tag_or_empty out "priority") (tag_or_empty out "thought"))]
      | None => []
      end
  | None => []
  end.

(** What is promised for every task of the pool: [df.1] are the calls
    the task has made so far, [df.2] those it makes in all. *)
Definition task_inv (W : world) (h : heap) (p : prog unit) (df : list call * list call) : Prop :=
  wp W p h (fun _ _ evs => df.1 ++ evs = df.2).


(** **** A sample run, used to exercise the theorems *)
Definition sample_corpus : gmap string string :=
  <["OPS-1" := "login fails"]> (<["OPS-2" := "login error"]> (<["OPS-3" := "dark mode"]> ∅)).

Definition mentions (m s : string) : bool :=
  match split_first m s with Some _ => true | None => false end.

(** A stub that judges a ticket related when it mentions a login error, and
    whose metadata output has a priority only. *)
Definition sample_world : world :=
  fun c =>
    match c with
    | Invoke linking_ref _ input =>
        Ok (Some (if mentions "login error" input
                  then "<related>True<related>" else "<related>False<related>"))
    | Invoke product_ref _ _ => Ok (Some "<priority>High<priority>")
    | GetAllTickets => Ok (Some sample_corpus)
    | GetTicketData _ => Ok (Some ("OPS-1", "login fails"))
    | LinkJiraIssue _ _ => Ok true
    | AddJiraComment _ _ => Ok true
    end.

(** The same, with a tracker that has no open ticket. *)
Definition empty_world : world :=
  fun c =>
    match c with
    | GetAllTickets => Ok (Some ∅)
    | Invoke r ch input => sample_world (Invoke r ch input)
    | GetTicketData key => sample_world (GetTicketData key)
    | LinkJiraIssue a b => sample_world (LinkJiraIssue a b)
    | AddJiraComment key comment => sample_world (AddJiraComment key comment)
    end.

(** The same, with a model that fails on the metadata prompt. *)
Definition silent_world : world :=
  fun c =>
    match c with
    | Invoke product_ref _ _ => Err (mkExn OtherException "rate limit")
    | Invoke linking_ref ch input => sample_world (Invoke linking_ref ch input)
    | GetAllTickets => sample_world GetAllTickets
    | GetTicketData key => sample_world (GetTicketData key)
    | LinkJiraIssue a b => sample_world (LinkJiraIssue a b)
    | AddJiraComment key comment => sample_world (AddJiraComment key comment)
    end.

Definition sample_heap : heap :=
  mkHeap (LLMTask_init "Decide whether two tickets are related." [("a", "b")] (mkOpenAI 0))
         (LLMTask_init "Write user stories." [] (mkOpenAI 0)).

Definition sample_manager : JiraAgentManager :=
  mkManager (Some linking_ref) (Some product_ref).

(** A schedule under which the task of OPS-2 makes its check, then the
    task of OPS-3 makes its check, and only then the first one links. *)
Definition sample_schedule : list nat := [2; 2; 2; 2; 2; 2; 0; 0; 0; 2].

(** The relatedness check made for one entry of the corpus. *)
Definition check_of (h : heap) (pd : string) (kd : string * string) : call :=
  Invoke linking_ref (effective_chain (deref h linking_ref)) (relatedness_prompt pd kd.2).

(** Calls of the link phase and calls of the metadata phase. *)
Definition is_link_phase_call (c : call) : bool :=
  is_invoke_on linking_ref c || is_any_link c.

Definition is_metadata_phase_call (c : call) : bool :=
  is_invoke_on product_ref c || is_comment c.

(** The model gave no usable output: it returned nothing, or the empty
    string, or it raised. *)
Definition no_output (reply : result (option string)) : Prop :=
  reply = Ok None \/ reply = Ok (Some "") \/ exists e, reply = Err e.

(** ** Vocabulary of the tracker operations *)

(** The request that the request layer hands to the transport. *)
Definition request_for (urljoin : string -> string -> string) (env : settings)
    (method endpoint : string) (data : option json) (timeout : Z) : request :=
  mkRequest method (urljoin (fmt (JIRA_INSTANCE_URL env)) endpoint)
    (mkAuth (JIRA_USERNAME env) (JIRA_API_TOKEN env)) data timeout.

(** All four settings are present. *)
Definition fully_configured (env : settings) : Prop :=
  configured env /\ truthy (PROJECT_KEY env) = true.

Definition link_request (urljoin : string -> string -> string) (env : settings)
    (inward outward link_type : string) : request :=
  request_for urljoin env "POST" "/rest/api/2/issueLink"
    (Some (JObj [("inwardIssue", JObj [("key", JStr inward)]);
                 ("outwardIssue", JObj [("key", JStr outward)]);
                 ("type", JObj [("name", JStr link_type)])])) 30.

Definition comment_request (urljoin : string -> string -> string) (env : settings)
    (key comment : string) : request :=
  request_for urljoin env "POST" ("/rest/api/2/issue/" +:+ key +:+ "/comment")
    (Some (JObj [("body", JStr comment)])) 30.

Definition issue_request (urljoin : string -> string -> string) (env : settings)
    (key : string) : request :=
  request_for urljoin env "GET" ("/rest/agile/1.0/issue/" +:+ key) None 30.

Definition myself_request (urljoin : string -> string -> string) (env : settings) : request :=
  request_for urljoin env "GET" "/rest/api/2/myself" None 30.

Definition search_endpoint (env : settings) : string :=
  "/rest/api/2/search?jql=" +:+
  ("project=" +:+ fmt (PROJECT_KEY env) +:+ " AND resolution=unresolved") +:+
  "&maxResults=1000".

Definition search_request (urljoin : string -> string -> string) (env : settings) : request :=
  request_for urljoin env "GET" (search_endpoint env) None 30.

(** A transport that answers one request with [r] and refuses the others. *)
Definition tracker_answers_only (q : request -> bool) (r : response)
    : request -> result response :=
  fun req => if q req then Ok r else Err (mkExn RequestException "Connection refused").

Definition is_post_to (url : string) (req : request) : bool :=
  String.eqb (req_method req) "POST" && String.eqb (req_url req) url.

Definition is_get_of (url : string) (req : request) : bool :=
  String.eqb (req_method req) "GET" && String.eqb (req_url req) url.

(** The entry that an issue contributes to the dictionary of the search. *)
Definition issue_entry (py_repr : json -> string) (issue : json) : option (string * string) :=
  match parse_jira_issue_fields py_repr issue with
  | Ok (JStr k, text) => Some (k, text)
  | _ => None
  end.

(** The issue parses, to a key that is a list or a dictionary. *)
Definition unhashable_key (py_repr : json -> string) (issue : json) : Prop :=
  exists key text,
    parse_jira_issue_fields py_repr issue = Ok (key, text) /\ forall k, key <> JStr k.

(** The dictionary that assigning the entries in order leaves: a later
    entry replaces an earlier one with the same key. *)
Definition dict_of (entries : list (string * string)) : gmap string string :=
  list_to_map (reverse entries).

(** The value under [issues] of a search response, as the loop reads it. *)
Definition issues_of (members : list (string * json)) : json :=
  from_option id (JArr []) (members_get "issues" members).

(** A search result in which one issue has a list as its key. *)
Definition unhashable_search_body : json :=
  JObj [("issues",
         JArr [JObj [("key", JStr "OPS-1"); ("fields", JObj [("summary", JStr "Login")])];
               JObj [("key", JArr [JStr "OPS-2"])]])].

(** A search result in which two issues have the same key. *)
Definition duplicate_search_body : json :=
  JObj [("issues",
         JArr [JObj [("key", JStr "OPS-1"); ("fields", JObj [("summary", JStr "Login")])];
               JObj [("fields", JObj [("summary", JStr "No key")])];
               JObj [("key", JStr "OPS-1"); ("fields", JObj [("summary", JStr "Logout")])]])].

(** **** Further sample stubs *)


(** The sample tracker when the target ticket cannot be fetched. *)
Definition missing_target_world : world :=
  fun c =>
    match c with
    | GetTicketData _ => Ok None
    | Invoke r ch input => sample_world (Invoke r ch input)
    | GetAllTickets => sample_world GetAllTickets
    | LinkJiraIssue a b => sample_world (LinkJiraIssue a b)
    | AddJiraComment key comment => sample_world (AddJiraComment key comment)
    end.

(** The tickets that a call writes to are tickets that the tracker
    returned: a comment goes to the ticket fetched for [tn], a link goes
    from that ticket to another key of the search result, and the only
    ticket fetched is [tn]. *)
Definition call_on_returned_tickets (W : world) (tn : string) (c : call) : Prop :=
  match c with
  | AddJiraComment k _ => exists pd, W (GetTicketData tn) = Ok (Some (k, pd))
  | LinkJiraIssue a b =>
      exists pd corpus,
        W (GetTicketData tn) = Ok (Some (a, pd)) /\
        W GetAllTickets = Ok (Some corpus) /\
        is_Some (corpus !! b) /\ b <> a
  | GetTicketData k => k = tn
  | _ => True
  end.

(** **** Texts in which a marker cannot begin *)

(** [m] and [s] differ at a position that both have. *)
Fixpoint clash (m s : string) : bool :=
  match m, s with
  | String a m', String b s' => if Ascii.eqb a b then clash m' s' else true
  | _, _ => false
  end.

(** At no position of [p] can an occurrence of [m] begin, whatever
    follows [p]. *)
Fixpoint clashes_inside (m p : string) : bool :=
  match p with
  | EmptyString => true
  | String c p' => clash m p && clashes_inside m p'
  end.

(** The text has no opening angle bracket. *)
Fixpoint no_lt (s : string) : bool :=
  match s with
  | EmptyString => true
  | String c s' => negb (Ascii.eqb c "<") && no_lt s'
  end.

(** An output of the metadata model with the four fields in the order
    of the comment, and any text around them. *)
Definition metadata_output (s0 user_stories s1 acceptance_criteria s2 priority s3 thought s4
    : string) : string :=
  s0 +:+ wrap user_stories "user_stories" +:+
  s1 +:+ wrap acceptance_criteria "acceptance_criteria" +:+
  s2 +:+ wrap priority "priority" +:+
  s3 +:+ wrap thought "thought" +:+ s4.

Definition sample_metadata_output : string :=
  metadata_output "" "As a user I log in" "
" "Login works" "
" "High" "
" "Blocks the release" "".

(** The sample tracker with a metadata model that fills in all fields. *)
Definition thorough_world : world :=
  fun c =>
    match c with
    | Invoke product_ref _ _ => Ok (Some sample_metadata_output)
    | Invoke linking_ref ch input => sample_world (Invoke linking_ref ch input)
    | GetAllTickets => sample_world GetAllTickets
    | GetTicketData key => sample_world (GetTicketData key)
    | LinkJiraIssue a b => sample_world (LinkJiraIssue a b)
    | AddJiraComment key comment => sample_world (AddJiraComment key comment)
    end.

(** ** The manager over the tracker operations

    The calls of the manager to the tracker are the functions of
    [jira_utils].  A world is backed by a transport when it answers them
    as these functions do.  The manager uses the key of a fetched ticket
    as a string; for a key that is not a string (which the functions can
    return, and no tracker sends) the answer is left open. *)
Definition ticket_answer (r : result (option (json * string)))
    (w : result (option (string * string))) : Prop :=
  match r with
  | Ok None => w = Ok None
  | Ok (Some (JStr k, text)) => w = Ok (Some (k, text))
  | Ok (Some (_, _)) => True
  | Err e => w = Err e
  end.

Definition backed_by (W : world) (requests_request : request -> result response)
    (urljoin : string -> string -> string) (http_error_text : response -> string)
    (py_repr : json -> string) (env : settings) : Prop :=
  W GetAllTickets = get_all_tickets requests_request urljoin http_error_text py_repr env /\
  (forall key,
      ticket_answer (get_ticket_data requests_request urljoin http_error_text py_repr env key)
        (W (GetTicketData key))) /\
  (forall a b,
      W (LinkJiraIssue a b) =
      link_jira_issue requests_request urljoin http_error_text env a b "Relates") /\
  (forall key comment,
      W (AddJiraComment key comment) =
      add_jira_comment requests_request urljoin http_error_text env key comment).

(** The world made of a transport and of a stub of the models. *)
Definition tracker_world (requests_request : request -> result response)
    (urljoin : string -> string -> string) (http_error_text : response -> string)
    (py_repr : json -> string) (env : settings)
    (model : task_ref -> chain -> string -> result (option string)) : world :=
  fun c =>
    match c with
    | Invoke r ch input => model r ch input
    | GetAllTickets => get_all_tickets requests_request urljoin http_error_text py_repr env
    | GetTicketData key =>
        match get_ticket_data requests_request urljoin http_error_text py_repr env key with
        | Ok (Some (JStr k, text)) => Ok (Some (k, text))
        | Ok _ => Ok None
        | Err e => Err e
        end
    | LinkJiraIssue a b =>
        link_jira_issue requests_request urljoin http_error_text env a b "Relates"
    | AddJiraComment key comment =>
        add_jira_comment requests_request urljoin http_error_text env key comment
    end.

Definition sample_model : task_ref -> chain -> string -> result (option string) :=
  fun r ch input => sample_world (Invoke r ch input).

(** A transport that answers the search with the sample issues, every
    other GET with the issue OPS-1, and every POST with 201. *)
Definition sample_tracker : request -> result response :=
  fun req =>
    if String.eqb (req_method req) "GET"
    then
      if String.eqb (req_url req) (join_url "https://tracker.example" (search_endpoint sample_env))
      then Ok (mkResponse 200 (Some sample_search_body))
      else Ok (mkResponse 200
                 (Some (JObj [("key", JStr "OPS-1");
                              ("fields", JObj [("summary", JStr "Login")])])))
    else Ok (mkResponse 201 None).

(** ** Vocabulary of the REST layer *)


(** Sample stubs of the framework, of the agent and of the database. *)
Definition plain_request_field (posted : json) : serializers.validation string :=
  match posted with
  | JObj members =>
      match members_get "request" members with
      | Some (JStr s) => serializers.Valid s
      | _ => serializers.ValidationError "This field is required."
      end
  | _ => serializers.ValidationError "Invalid data."
  end.

Definition echo_agent : option (string -> result (option (list (string * json)))) :=
  Some (fun input => Ok (Some [("input", JStr input); ("output", JStr "Task complete")])).

Definition nonblank_response (output : json) : bool :=
  match output with JStr (String _ _) => true | _ => false end.

Definition first_id : string -> json -> result Z := fun _ _ => Ok 1%Z.

(** ** Vocabulary of the client *)

Fixpoint requests_made (tr : list api_utils.action) : nat :=
  match tr with
  | [] => 0
  | api_utils.Request _ _ :: tr' => S (requests_made tr')
  | api_utils.Sleep _ :: tr' => requests_made tr'
  end.

Fixpoint time_slept (tr : list api_utils.action) : Z :=
  match tr with
  | [] => 0
  | api_utils.Request _ _ :: tr' => time_slept tr'
  | api_utils.Sleep s :: tr' => s + time_slept tr'
  end.

(** An attempt after which the client tries again, if attempts are left. *)
Definition retryable (a : api_utils.attempt_result) : Prop :=
  match a with
  | api_utils.Responds r => error_status r
  | api_utils.RaisesTimeout => True
  | api_utils.RaisesRequestException _ => True
  | api_utils.RaisesOther _ => False
  end.

(** What an attempt that failed leads to: the error after the last
    attempt, else a pause (after a failure other than a timeout) and the
    attempts that are left. *)
Definition after_failure (self : api_utils.APIClient) (c : api_utils.session_call)
    (attempt : Z) (pause : bool) (msg : string)
    (next_attempts : api_utils.request_outcome * list api_utils.action)
    : api_utils.request_outcome * list api_utils.action :=
  if (attempt =? api_utils.max_retries self - 1)%Z
  then (api_utils.RaisesAPIError msg, [api_utils.Request attempt c])
  else (next_attempts.1,
        api_utils.Request attempt c ::
        (if pause then [api_utils.Sleep (2 ^ attempt)] else []) ++ next_attempts.2).

(** Sample stubs: a client with the default settings, and a backend
    that times out once and then answers. *)
Definition sample_client : api_utils.APIClient :=
  api_utils.mkAPIClient 30 3 (config.mkAppConfig "http://localhost:8000/").

Definition flaky_backend (r : response) : nat -> api_utils.session_call -> api_utils.attempt_result :=
  fun attempt _ =>
    match attempt with
    | 0 => api_utils.RaisesRequestException "Connection refused"
    | _ => api_utils.Responds r
    end.


(** * Properties of [jira_utils] *)

Section tag_extraction.

Lemma append_nil_l (s : string) : "" +:+ s = s.
Proof. reflexivity. Qed.

Lemma append_cons (c : ascii) (s t : string) : String c s +:+ t = String c (s +:+ t).
Proof. reflexivity. Qed.

Lemma append_nil_r (s : string) : s +:+ "" = s.
Proof. induction s as [|c s IH]; [reflexivity|]. now rewrite append_cons, IH. Qed.

Lemma append_assoc (s t u : string) : (s +:+ t) +:+ u = s +:+ t +:+ u.
Proof.
  induction s as [|c s IH]; [reflexivity|]. now rewrite !append_cons, IH.
Qed.

Lemma strip_prefix_app (m s : string) : strip_prefix m (m +:+ s) = Some s.
Proof.
  induction m as [|c m IH]; [reflexivity|].
  rewrite append_cons. simpl. rewrite Ascii.eqb_refl. exact IH.
Qed.


Lemma split_first_unfold (m s : string) :
  split_first m s =
  match strip_prefix m s with
  | Some rest => Some (EmptyString, rest)
  | None =>
      match s with
      | EmptyString => None
      | String c s' =>
          match split_first m s' with
          | Some (pre, post) => Some (String c pre, post)
          | None => None
          end
      end
  end.
Proof. destruct s; reflexivity. Qed.



Lemma split_first_closing (m a : string) :
  fst <$> split_first m (a +:+ m) = Some a <-> marker_begins_inside m a = false.
Proof.
  induction a as [|c a IH].
  - rewrite append_nil_l, split_first_unfold.
    rewrite <- (append_nil_r m) at 2. rewrite strip_prefix_app.
    simpl. tauto.
  - rewrite split_first_unfold. simpl. rewrite append_cons.
    destruct (strip_prefix m (String c (a +:+ m))) eqn:E.
    + simpl. split; discriminate.
    + rewrite <- IH.
      destruct (split_first m (a +:+ m)) as [[pre post]|]; simpl;
        split; congruence.
Qed.

Lemma extract_wrap (a tag : string) :
  extract_tag_helper (wrap a tag) tag = fst <$> split_first (marker tag) (a +:+ marker tag).
Proof.
  unfold extract_tag_helper, wrap.
  rewrite (split_first_unfold _ (marker tag +:+ _)), strip_prefix_app.
  now destruct (split_first (marker tag) (a +:+ marker tag)) as [[? ?]|].
Qed.


(** A text without the marker has no field. *)
Lemma extract_tag_helper_absent (text tag : string) :
  split_first (marker tag) text = None -> extract_tag_helper text tag = None.
Proof. unfold extract_tag_helper. now intros ->. Qed.

(** C8, as stated, fails: when the wrapped text itself contains the
    marker, extraction stops at that marker and returns only the part of
    the text before it. *)
Lemma extract_wrap_roundtrip_fails :
  regex_plain "t" = true /\
  extract_tag_helper (wrap "x<t>y" "t") "t" = Some "x" /\
  extract_tag_helper (wrap "x<t>y" "t") "t" <> Some "x<t>y".
Proof. split; [reflexivity|]. split; [reflexivity|discriminate]. Qed.

(** C8, amended: for a tag without regex operators and a text [a] inside
    which no occurrence of the marker [<tag>] begins, extracting [tag]
    from [a] wrapped in the markers returns [a]. *)
Theorem extract_wrap_roundtrip (a tag : string) :
  regex_plain tag = true ->
  marker_begins_inside (marker tag) a = false ->
  extract_tag_helper (wrap a tag) tag = Some a.
Proof.
  intros _ H. rewrite extract_wrap. now apply split_first_closing.
Qed.

Lemma extract_wrap_roundtrip_witness :
  regex_plain "priority" = true /\
  marker_begins_inside (marker "priority") "High" = false /\
  extract_tag_helper (wrap "High" "priority") "priority" = Some "High".
Proof.
  split; [reflexivity|]. split; [reflexivity|].
  apply (extract_wrap_roundtrip "High" "priority"); reflexivity.
Defined.

(** The condition of the amended round trip is also necessary. *)
Lemma extract_wrap_roundtrip_only_if (a tag : string) :
  extract_tag_helper (wrap a tag) tag = Some a ->
  marker_begins_inside (marker tag) a = false.
Proof. rewrite extract_wrap. apply split_first_closing. Qed.

End tag_extraction.

Section ticket_search.
Variable requests_request : request -> result response.
Variable urljoin : string -> string -> string.
Variable http_error_text : response -> string.
Variable py_repr : json -> string.
Variable env : settings.

Local Abbreviation make_request := (_make_request requests_request urljoin http_error_text env).
Local Abbreviation search := (get_all_tickets requests_request urljoin http_error_text py_repr env).

Lemma raise_for_status_error (r : response) :
  error_status r ->
  raise_for_status http_error_text r = Err (mkExn RequestException (http_error_text r)).
Proof.
  unfold error_status, raise_for_status. intros [H1 H2].
  apply Z.leb_le in H1. apply Z.ltb_lt in H2. now rewrite H1, H2.
Qed.

Lemma raise_for_status_ok (r : response) :
  ~ error_status r -> raise_for_status http_error_text r = Ok tt.
Proof.
  unfold error_status, raise_for_status. intros H.
  destruct (400 <=? status_code r)%Z eqn:H1; [|reflexivity].
  destruct (status_code r <? 600)%Z eqn:H2; [|reflexivity].
  apply Z.leb_le in H1. apply Z.ltb_lt in H2. lia.
Qed.

(** The request layer turns a failure of the transport into the tracker
    error. *)
Lemma make_request_unreachable method endpoint data timeout :
  configured env ->
  (forall req, exists e,
      requests_request req = Err e /\ exn_kind_of e = RequestException) ->
  exists msg, make_request method endpoint data timeout = Err (mkExn JiraAPIError msg).
Proof.
  intros (Hu & Hn & Ht) Hreq. unfold _make_request, _get_auth.
  rewrite Hu, Hn, Ht. simpl.
  destruct (Hreq (mkRequest method (urljoin (fmt (JIRA_INSTANCE_URL env)) endpoint)
                    (mkAuth (JIRA_USERNAME env) (JIRA_API_TOKEN env)) data timeout))
    as (e & -> & Hk).
  simpl. rewrite Hk. destruct (decide _); [eauto|congruence].
Qed.

(** ... and an HTTP error status as well. *)
Lemma make_request_error_status method endpoint data timeout r :
  configured env ->
  (forall req, requests_request req = Ok r) ->
  error_status r ->
  exists msg, make_request method endpoint data timeout = Err (mkExn JiraAPIError msg).
Proof.
  intros (Hu & Hn & Ht) Hreq Hst. unfold _make_request, _get_auth.
  rewrite Hu, Hn, Ht. simpl. rewrite Hreq. simpl.
  rewrite (raise_for_status_error _ Hst). simpl. eauto.
Qed.

Lemma search_never_raises : exists r, search = Ok r.
Proof.
  unfold get_all_tickets, try_except.
  match goal with |- exists r, match ?b with _ => _ end = _ => destruct b end; eauto.
Qed.

Lemma make_request_Ok method endpoint data timeout resp :
  make_request method endpoint data timeout = Ok resp ->
  configured env /\ (exists req, requests_request req = Ok resp) /\ ~ error_status resp.
Proof.
  unfold _make_request, _get_auth, configured.
  destruct (truthy (JIRA_INSTANCE_URL env)); simpl; [|discriminate].
  destruct (truthy (JIRA_USERNAME env)); simpl; [|discriminate].
  destruct (truthy (JIRA_API_TOKEN env)); simpl; [|discriminate].
  match goal with |- context [requests_request ?q] =>
    destruct (requests_request q) as [resp'|e] eqn:E end; simpl.
  - unfold raise_for_status, error_status.
    destruct ((400 <=? status_code resp')%Z && (status_code resp' <? 600)%Z) eqn:Es; simpl.
    + discriminate.
    + intros [= <-]. repeat split; eauto.
      intros [H1 H2]. apply Z.leb_le in H1. apply Z.ltb_lt in H2.
      rewrite H1, H2 in Es. discriminate.
  - destruct (decide _); discriminate.
Qed.

Lemma make_request_answered method endpoint data timeout r :
  configured env ->
  (forall req, requests_request req = Ok r) ->
  ~ error_status r ->
  make_request method endpoint data timeout = Ok r.
Proof.
  intros (Hu & Hn & Ht) Hreq Hst. unfold _make_request, _get_auth.
  rewrite Hu, Hn, Ht. simpl. rewrite Hreq. simpl.
  now rewrite (raise_for_status_ok _ Hst).
Qed.

(** C10 (amended): the search itself never raises.  When the service is
    unreachable, or answers with an HTTP error status, the search returns
    [None]; when the service answers a request sent with complete settings
    with a successful status and no issues, the search returns the empty
    dictionary.  It is the request layer underneath that raises the
    tracker error in the first two cases. *)
Theorem search_open_tickets_outcomes (r : response) :
  (exists res, search = Ok res) /\
  ((forall req, exists e, requests_request req = Err e) -> search = Ok None) /\
  ((forall req, requests_request req = Ok r) -> error_status r -> search = Ok None) /\
  (configured env ->
   (forall req, requests_request req = Ok r) ->
   ~ error_status r ->
   (exists members,
       body r = Some (JObj members) /\
       (members_get "issues" members = None \/
        members_get "issues" members = Some (JArr []))) ->
   search = Ok (Some ∅)) /\
  (configured env ->
   (forall req, exists e,
       requests_request req = Err e /\ exn_kind_of e = RequestException) ->
   forall method endpoint data timeout,
   exists msg, make_request method endpoint data timeout = Err (mkExn JiraAPIError msg)) /\
  (configured env ->
   (forall req, requests_request req = Ok r) -> error_status r ->
   forall method endpoint data timeout,
   exists msg, make_request method endpoint data timeout = Err (mkExn JiraAPIError msg)).
Proof.
  split; [apply search_never_raises|].
  split; [|split; [|split; [|split]]].
  4: { intros Hcfg Hdown method endpoint data timeout.
       now apply make_request_unreachable. }
  4: { intros Hcfg Hans Hst method endpoint data timeout.
       now apply make_request_error_status with (r := r). }
  - intros Hdown. unfold get_all_tickets.
    match goal with |- context [_make_request ?a ?b ?c ?d ?m ?e ?f ?g] =>
      destruct (_make_request a b c d m e f g) as [resp|e0] eqn:E end; [|reflexivity].
    apply make_request_Ok in E as (_ & (req & Hreq) & _).
    destruct (Hdown req) as (e & He). congruence.
  - intros Hans Hst. unfold get_all_tickets.
    match goal with |- context [_make_request ?a ?b ?c ?d ?m ?e ?f ?g] =>
      destruct (_make_request a b c d m e f g) as [resp|e0] eqn:E end; [|reflexivity].
    apply make_request_Ok in E as (_ & (req & Hreq) & Hok).
    rewrite Hans in Hreq. injection Hreq as <-. contradiction.
  - intros Hcfg Hans Hst (members & Hbody & Hissues). unfold get_all_tickets.
    rewrite (make_request_answered _ _ _ _ r Hcfg Hans Hst). simpl.
    unfold response_json. rewrite Hbody. simpl.
    destruct Hissues as [-> | ->]; reflexivity.
Qed.

End ticket_search.

Lemma search_open_tickets_outcomes_witness :
  get_all_tickets tracker_down join_url error_text repr_stub sample_env = Ok None /\
  get_all_tickets (tracker_answers (mkResponse 503 None)) join_url error_text repr_stub
    sample_env = Ok None /\
  get_all_tickets
    (tracker_answers (mkResponse 200 (Some (JObj [("total", JStr "0"); ("issues", JArr [])]))))
    join_url error_text repr_stub sample_env = Ok (Some ∅).
Proof.
  split; [|split].
  - destruct (search_open_tickets_outcomes tracker_down join_url error_text repr_stub
                sample_env (mkResponse 503 None)) as (_ & H & _).
    apply H. intros req. eexists. reflexivity.
  - destruct (search_open_tickets_outcomes (tracker_answers (mkResponse 503 None))
                join_url error_text repr_stub sample_env (mkResponse 503 None))
      as (_ & _ & H & _).
    apply H.
    + intros req. reflexivity.
    + unfold error_status. simpl. lia.
  - destruct (search_open_tickets_outcomes
                (tracker_answers
                   (mkResponse 200 (Some (JObj [("total", JStr "0"); ("issues", JArr [])]))))
                join_url error_text repr_stub sample_env
                (mkResponse 200 (Some (JObj [("total", JStr "0"); ("issues", JArr [])]))))
      as (_ & _ & _ & H & _).
    apply H.
    + repeat split; reflexivity.
    + intros req. reflexivity.
    + unfold error_status. simpl. lia.
    + eexists. split; [reflexivity|]. right. reflexivity.
Defined.

(** The issue without a key is skipped; a [null] description prints as
    None, and the joined text is stripped. *)
Example search_sample_body :
  get_all_tickets (tracker_answers (mkResponse 200 (Some sample_search_body)))
    join_url error_text repr_stub sample_env =
  Ok (Some (<["OPS-1" := "Login None"]> (<["OPS-2" := "Dark mode  for the editor"]> ∅))).
Proof. vm_compute. reflexivity. Qed.

(** C10, as stated, fails: with the service unreachable the search does
    not fail with the tracker error, it returns [None]. *)
Lemma search_unreachable_returns_none :
  get_all_tickets tracker_down join_url error_text repr_stub sample_env = Ok None /\
  ~ (exists e,
        get_all_tickets tracker_down join_url error_text repr_stub sample_env = Err e /\
        exn_kind_of e = JiraAPIError).
Proof.
  split; [reflexivity|]. intros (e & H & _). discriminate H.
Qed.

(** * The program logic *)

Section heap_order.

Lemma task_le_refl (t : LLMTask) : task_le t t.
Proof. unfold task_le. tauto. Qed.

Lemma task_le_trans (t1 t2 t3 : LLMTask) : task_le t1 t2 -> task_le t2 t3 -> task_le t1 t3.
Proof.
  unfold task_le. intros (?&?&?&?&?) (?&?&?&?&?).
  repeat split; try congruence; auto.
Qed.

Lemma heap_le_refl (h : heap) : heap_le h h.
Proof. intros r. apply task_le_refl. Qed.

Lemma heap_le_trans (h1 h2 h3 : heap) : heap_le h1 h2 -> heap_le h2 h3 -> heap_le h1 h3.
Proof. intros H1 H2 r. eapply task_le_trans; eauto. Qed.

(** A task whose [_chain] is set invokes that chain, also later. *)
Lemma task_le_chain_set (t t' : LLMTask) (c : chain) :
  task_le t t' -> _chain t = Some c -> _chain t' = Some c.
Proof.
  intros (_&_&_&He&Hs) Hc. unfold effective_chain in He. rewrite Hc in He, Hs.
  destruct (_chain t') as [c'|]; simpl in *; [congruence|].
  exfalso. now apply Hs.
Qed.

Lemma deref_store_chain (r r' : task_ref) (c : chain) (h : heap) :
  deref (store_chain r c h) r' =
  if task_ref_eqb r r' then with_chain (deref h r') c else deref h r'.
Proof. destruct r, r'; reflexivity. Qed.

(** Assigning to [_chain] the chain that the task invokes anyway leads to
    a later state of the store. *)
Lemma store_effective_chain_le (r : task_ref) (h : heap) :
  heap_le h (store_chain r (effective_chain (deref h r)) h).
Proof.
  intros r'. rewrite deref_store_chain.
  destruct (task_ref_eqb r r') eqn:E; [|apply task_le_refl].
  assert (r = r') as <- by (destruct r, r'; simpl in E; congruence).
  unfold task_le, with_chain; simpl. repeat split; auto.
Qed.

End heap_order.

Section program_logic.
Variable W : world.

Lemma wp_mono {A} (p : prog A) (h : heap) (Q Q' : result A -> heap -> list call -> Prop) :
  (forall x h' evs, Q x h' evs -> Q' x h' evs) -> wp W p h Q -> wp W p h Q'.
Proof.
  revert h Q Q'. induction p as [a|e|r k IH|r c k IH|c k IH]; intros h Q Q' HQ; simpl.
  - apply HQ.
  - apply HQ.
  - intros H h' Hle. eapply IH; eauto.
  - intros H h' Hle. destruct (H h' Hle). split; [assumption|]. eapply IH; eauto.
  - apply IH. intros x h' evs. apply HQ.
Qed.

(** The store a specification starts from may be replaced by any later
    one, provided the postcondition accepts later stores. *)
Lemma wp_later {A} (p : prog A) (h1 h2 : heap) (Q : result A -> heap -> list call -> Prop) :
  (forall x ha hb evs, heap_le ha hb -> Q x ha evs -> Q x hb evs) ->
  heap_le h1 h2 -> wp W p h1 Q -> wp W p h2 Q.
Proof.
  revert h1 h2 Q. induction p as [a|e|r k IH|r c k IH|c k IH]; intros h1 h2 Q HQ Hle; simpl.
  - now apply HQ.
  - now apply HQ.
  - intros H h' Hle'. apply H. eapply heap_le_trans; eauto.
  - intros H h' Hle'. apply H. eapply heap_le_trans; eauto.
  - apply IH; [|assumption]. intros x ha hb evs. apply HQ.
Qed.

Lemma wp_bind {A B} (p : prog A) (f : A -> prog B) (h : heap)
    (Q : result B -> heap -> list call -> Prop) :
  wp W p h (fun x h' evs =>
              match x with
              | Ok a => wp W (f a) h' (fun y h'' evs' => Q y h'' (evs ++ evs'))
              | Err e => Q (Err e) h' evs
              end) ->
  wp W (p ≫= f) h Q.
Proof.
  revert h Q. induction p as [a|e|r k IH|r c k IH|c k IH]; intros h Q; simpl.
  - intros H. exact H.
  - intros H. exact H.
  - intros H h' Hle. apply IH, H, Hle.
  - intros H h' Hle. destruct (H h' Hle). split; [assumption|]. now apply IH.
  - intros H. apply IH. exact H.
Qed.

Lemma wp_try {A} (p : prog A) (handler : exn -> prog A) (h : heap)
    (Q : result A -> heap -> list call -> Prop) :
  wp W p h (fun x h' evs =>
              match x with
              | Ok a => Q (Ok a) h' evs
              | Err e => wp W (handler e) h' (fun y h'' evs' => Q y h'' (evs ++ evs'))
              end) ->
  wp W (try_prog p handler) h Q.
Proof.
  revert h Q. induction p as [a|e|r k IH|r c k IH|c k IH]; intros h Q; simpl.
  - intros H. exact H.
  - intros H. exact H.
  - intros H h' Hle. apply IH, H, Hle.
  - intros H h' Hle. destruct (H h' Hle). split; [assumption|]. now apply IH.
  - intros H. apply IH. exact H.
Qed.

(** Without interference: what [wp] promises holds of [run]. *)
Lemma wp_run {A} (p : prog A) (h : heap) (Q : result A -> heap -> list call -> Prop) :
  wp W p h Q ->
  Q (outcome (run W p h)) (final_heap (run W p h)) (calls (run W p h)) /\
  heap_le h (final_heap (run W p h)).
Proof.
  revert h Q. induction p as [a|e|r k IH|r c k IH|c k IH]; intros h Q; simpl.
  - intros H. split; [exact H|apply heap_le_refl].
  - intros H. split; [exact H|apply heap_le_refl].
  - intros H. apply IH, H, heap_le_refl.
  - intros H. destruct (H h (heap_le_refl h)) as [Hle Hk].
    destruct (IH _ _ Hk) as [HQ Hle']. split; [exact HQ|].
    eapply heap_le_trans; eauto.
  - intros H. specialize (IH _ _ _ H).
    destruct (run W (k (W c)) h) as [[x h'] tr]. exact IH.
Qed.

(** One atomic action of a task preserves what [wp] promises for it. *)
Lemma wp_step (p : prog unit) (h : heap) (d full : list call) :
  wp W p h (fun _ _ evs => d ++ evs = full) ->
  heap_le h (step W p h).1.2 /\
  wp W (step W p h).1.1 (step W p h).1.2
     (fun _ _ evs => (d ++ (step W p h).2) ++ evs = full).
Proof.
  destruct p as [a|e|r k|r c k|c k]; simpl.
  - intros H. split; [apply heap_le_refl|]. now rewrite app_nil_r.
  - intros H. split; [apply heap_le_refl|]. now rewrite app_nil_r.
  - intros H. split; [apply heap_le_refl|]. rewrite app_nil_r.
    apply H, heap_le_refl.
  - intros H. rewrite app_nil_r. apply H, heap_le_refl.
  - intros H. split; [apply heap_le_refl|].
    eapply wp_mono; [|exact H]. simpl. intros _ _ evs <-.
    now rewrite <- app_assoc.
Qed.

End program_logic.

(** * The thread pool *)

Section thread_pool.
Variable W : world.

Lemma concat_insert_app {A} (l : list (list A)) (i : nat) (d t : list A) :
  l !! i = Some d -> concat (<[i := d ++ t]> l) ≡ₚ concat l ++ t.
Proof.
  revert i. induction l as [|x l IH]; intros [|i] H; simpl in *; try discriminate.
  - injection H as ->. rewrite <- !app_assoc. apply Permutation_app_head, Permutation_app_comm.
  - rewrite (IH _ H). now rewrite app_assoc.
Qed.

Lemma task_inv_later (h h' : heap) (p : prog unit) (df : list call * list call) :
  heap_le h h' -> task_inv W h p df -> task_inv W h' p df.
Proof. intros Hle. apply wp_later; auto. Qed.

Lemma pool_steps_sound (sched : list nat) :
  forall (tasks : list (prog unit)) (dfs : list (list call * list call)) (h : heap),
    Forall2 (task_inv W h) tasks dfs ->
    exists dfs',
      Forall2 (task_inv W (pool_steps W sched tasks h).1.2) (pool_steps W sched tasks h).1.1 dfs' /\
      dfs'.*2 = dfs.*2 /\
      concat (dfs.*1) ++ (pool_steps W sched tasks h).2 ≡ₚ concat (dfs'.*1) /\
      heap_le h (pool_steps W sched tasks h).1.2.
Proof.
  induction sched as [|i sched IH]; intros tasks dfs h Hinv; simpl.
  - exists dfs. rewrite app_nil_r. split; [assumption|]. split; [reflexivity|].
    split; [reflexivity|apply heap_le_refl].
  - destruct (tasks !! i) as [p|] eqn:Hp; [|now apply IH].
    destruct (Forall2_lookup_l _ _ _ _ _ Hinv Hp) as ([d full] & Hdf & Hpinv).
    destruct (wp_step W p h d full Hpinv) as [Hle Hp'].
    destruct (step W p h) as [[p' h1] t] eqn:Hstep. simpl in Hle, Hp'.
    assert (Forall2 (task_inv W h1) (<[i := p']> tasks) (<[i := (d ++ t, full)]> dfs)) as Hinv1.
    { apply Forall2_insert; [|exact Hp'].
      eapply Forall2_impl; [exact Hinv|]. intros q df. now apply task_inv_later. }
    destruct (IH _ _ _ Hinv1) as (dfs' & Hinv' & Hfull & Hperm & Hle').
    destruct (pool_steps W sched (<[i := p']> tasks) h1) as [[tasks' h2] t'].
    simpl in *. exists dfs'. split; [assumption|]. split; [|split].
    + rewrite Hfull, list_fmap_insert. simpl.
      apply list_insert_id. now rewrite list_lookup_fmap, Hdf.
    + rewrite <- Hperm, list_fmap_insert. simpl.
      rewrite concat_insert_app by (now rewrite list_lookup_fmap, Hdf).
      now rewrite <- app_assoc.
    + eapply heap_le_trans; eauto.
Qed.

Lemma pool_join_sound (tasks : list (prog unit)) :
  forall (dfs : list (list call * list call)) (h : heap),
    Forall2 (task_inv W h) tasks dfs ->
    concat (dfs.*1) ++ (pool_join W tasks h).2 ≡ₚ concat (dfs.*2) /\
    heap_le h (pool_join W tasks h).1.
Proof.
  induction tasks as [|p tasks IH]; intros dfs h Hinv.
  - apply Forall2_nil_inv_l in Hinv as ->. simpl. split; [done|apply heap_le_refl].
  - apply Forall2_cons_inv_l in Hinv as ([d full] & dfs' & Hp & Hinv & ->).
    destruct (wp_run W p h _ Hp) as [Hd Hle]. simpl.
    destruct (run W p h) as [[x h1] t]. unfold calls, final_heap in *. simpl in *.
    assert (Forall2 (task_inv W h1) tasks dfs') as Hinv1.
    { eapply Forall2_impl; [exact Hinv|]. intros q df. now apply task_inv_later. }
    destruct (IH _ _ Hinv1) as [Hperm Hle'].
    destruct (pool_join W tasks h1) as [h2 t']. simpl in *. split.
    + rewrite <- Hd, <- Hperm. rewrite <- !app_assoc.
      apply Permutation_app_head. rewrite !app_assoc.
      apply Permutation_app_tail, Permutation_app_comm.
    + eapply heap_le_trans; eauto.
Qed.

(** Under every schedule the pool makes, in some order, exactly the calls
    that its tasks make, and it only moves the store to a later state. *)
Lemma executor_map_sound {X} (sched : list nat) (fn : X -> prog unit) (args : list X)
    (full : X -> list call) (h : heap) :
  (forall a, a ∈ args -> wp W (fn a) h (fun _ _ evs => evs = full a)) ->
  outcome (executor_map W sched fn args h) = Ok tt /\
  calls (executor_map W sched fn args h) ≡ₚ concat (full <$> args) /\
  heap_le h (final_heap (executor_map W sched fn args h)).
Proof.
  intros Hfn. unfold executor_map.
  assert (Forall2 (task_inv W h) (fn <$> args) ((fun a => ([], full a)) <$> args)) as Hinv.
  { apply Forall2_fmap, Forall_Forall2_diag, Forall_forall.
    intros a Ha. unfold task_inv. simpl. now apply Hfn. }
  destruct (pool_steps_sound sched _ _ _ Hinv) as (dfs' & Hinv' & Hfull & Hperm & Hle).
  destruct (pool_steps W sched (fn <$> args) h) as [[tasks h1] t]. simpl in *.
  destruct (pool_join_sound _ _ _ Hinv') as [Hperm' Hle'].
  destruct (pool_join W tasks h1) as [h2 t']. simpl in *.
  split; [reflexivity|]. split; [|eapply heap_le_trans; eauto].
  unfold calls. simpl.
  rewrite Hfull in Hperm'. rewrite <- Hperm in Hperm'.
  rewrite <- !list_fmap_compose in Hperm'.
  assert (concat ((fst ∘ (fun a : X => ([] : list call, full a))) <$> args) = []) as Hnil.
  { clear. induction args; simpl; auto. }
  rewrite Hnil in Hperm'. simpl in Hperm'.
  rewrite Hperm'. reflexivity.
Qed.

End thread_pool.

(** * Specifications of the methods *)

Section methods.
Variable W : world.

Lemma effective_chain_set (t : LLMTask) (c : chain) :
  _chain t = Some c -> effective_chain t = c.
Proof. unfold effective_chain. now intros ->. Qed.

Lemma effective_chain_unset (t : LLMTask) :
  _chain t = None -> effective_chain t = built_chain t.
Proof. unfold effective_chain. now intros ->. Qed.

Lemma heap_le_effective (h h' : heap) (r : task_ref) :
  heap_le h h' -> effective_chain (deref h r) = effective_chain (deref h' r).
Proof. intros H. apply (H r). Qed.

Lemma wp_load {A} (r : task_ref) (f : LLMTask -> prog A) (h : heap)
    (Q : result A -> heap -> list call -> Prop) :
  (forall h', heap_le h h' -> wp W (f (deref h' r)) h' Q) ->
  wp W (load r ≫= f) h Q.
Proof. intros H. exact H. Qed.

Lemma wp_perform (c : call) (h : heap)
    (Q : result (answer c) -> heap -> list call -> Prop) :
  Q (W c) h [c] -> wp W (perform c) h Q.
Proof. unfold perform. simpl. now destruct (W c). Qed.

(** [run_llm] invokes the chain of its task once, with the given input,
    and returns what the chain returns, or [None] when the chain raises. *)
Lemma run_llm_wp (r : task_ref) (input : string) (h : heap) :
  wp W (run_llm r input) h
     (fun x h' evs =>
        heap_le h h' /\ x = Ok (llm_output W h r input) /\
        evs = [Invoke r (effective_chain (deref h r)) input]).
Proof.
  unfold run_llm. apply wp_try, wp_load. intros h1 H1.
  assert (forall h2, heap_le h1 h2 -> _chain (deref h2 r) <> None ->
            wp W (load r ≫= fun t'' =>
                    match _chain t'' with
                    | Some c => perform (Invoke r c input)
                    | None => Raise (mkExn AttributeError
                                       "'NoneType' object has no attribute 'invoke'")
                    end) h2
               (fun x h' evs =>
                  match x with
                  | Ok a =>
                      heap_le h h' /\ Ok a = Ok (llm_output W h r input) /\
                      [] ++ evs = [Invoke r (effective_chain (deref h r)) input]
                  | Err e =>
                      wp W (Ret None) h'
                         (fun y h'' evs' =>
                            heap_le h h'' /\ y = Ok (llm_output W h r input) /\
                            ([] ++ evs) ++ evs' = [Invoke r (effective_chain (deref h r)) input])
                  end)) as Hinvoke.
  { intros h2 H2 Hset. apply wp_load. intros h3 H3.
    assert (heap_le h h3) as H03 by eauto using heap_le_trans.
    destruct (_chain (deref h3 r)) as [c|] eqn:Hc.
    - apply (wp_perform (Invoke r c input)).
      rewrite <- (effective_chain_set _ _ Hc), <- (heap_le_effective _ _ r H03).
      unfold llm_output.
      destruct (W (Invoke r (effective_chain (deref h r)) input)); simpl; auto.
    - exfalso. apply (H3 r) in Hset. contradiction. }
  apply wp_bind.
  destruct (_chain (deref h1 r)) as [c|] eqn:Hc; simpl.
  - apply Hinvoke; [apply heap_le_refl|congruence].
  - intros h2 H2 h3 H3 h4 H4.
    assert (heap_le h1 h4) as H14 by eauto using heap_le_trans.
    assert (pipe [Message system (system_prompt (deref h2 r));
                  FewShotChatMessagePromptTemplate [(human, "{input}"); (ai, "{output}")]
                    (examples (deref h2 r));
                  Message human "{input}"] (llm (deref h3 r))
            = effective_chain (deref h4 r)) as ->.
    { rewrite <- (heap_le_effective _ _ r H14), (effective_chain_unset _ Hc).
      unfold built_chain.
      destruct (H2 r) as (E1 & E2 & E3 & _), (H3 r) as (_ & _ & E4 & _). congruence. }
    split; [apply store_effective_chain_le|].
    apply Hinvoke.
    + eapply heap_le_trans; [exact H14|apply store_effective_chain_le].
    + rewrite deref_store_chain. destruct r; discriminate.
Qed.

Lemma nonempty_eqb_True (o : option string) :
  match nonempty o with
  | Some result => String.eqb result "True"
  | None => false
  end = bool_decide (o = Some "True").
Proof.
  destruct o as [[|c s]|]; [reflexivity| |reflexivity].
  change (nonempty (Some (String c s))) with (Some (String c s)). cbv beta iota.
  destruct (String.eqb (String c s) "True") eqn:E.
  - apply String.eqb_eq in E. rewrite E. symmetry. now apply bool_decide_eq_true.
  - apply String.eqb_neq in E. symmetry. apply bool_decide_eq_false. congruence.
Qed.

Lemma check_wp (self : JiraAgentManager) (ticket1 ticket2 : string) (h : heap) :
  wp W (_llm_check_ticket_match self ticket1 ticket2) h
     (fun x h' evs =>
        heap_le h h' /\ x = Ok (check_verdict W self h ticket1 ticket2) /\
        evs = check_calls self h ticket1 ticket2).
Proof.
  unfold _llm_check_ticket_match, check_verdict, check_calls. apply wp_try.
  destruct (linking_model self) as [r|]; [|simpl; auto using heap_le_refl].
  apply wp_bind. eapply wp_mono; [|apply run_llm_wp].
  intros x h' evs (Hle & -> & ->). fold (relatedness_prompt ticket1 ticket2).
  unfold verdict_of.
  destruct (nonempty (llm_output W h r (relatedness_prompt ticket1 ticket2))) as [out|];
    simpl; [|auto].
  rewrite <- nonempty_eqb_True.
  destruct (nonempty (extract_tag_helper out "related")); simpl; auto.
Qed.

Lemma helper_wp (self : JiraAgentManager) (args : string * string * string * string)
    (h : heap) :
  wp W (_check_issue_and_link_helper self args) h
     (fun x h' evs => heap_le h h' /\ x = Ok tt /\ evs = helper_calls W self h args).
Proof.
  destruct args as [[[key data] pk] pd]. unfold _check_issue_and_link_helper, helper_calls.
  apply wp_try. destruct (String.eqb key pk); [simpl; auto using heap_le_refl|].
  cbv beta iota delta [negb].
  apply wp_bind. eapply wp_mono; [|apply check_wp].
  intros x h' evs (Hle & -> & ->).
  destruct (check_verdict W self h pd data); simpl.
  - destruct (W (LinkJiraIssue pk key)); simpl; rewrite ?app_nil_r; auto.
  - rewrite app_nil_r. auto.
Qed.

Lemma tag_or_empty_or (out tag : string) :
  default "" (nonempty (extract_tag_helper out tag)) = tag_or_empty out tag.
Proof. unfold tag_or_empty. now destruct (extract_tag_helper out tag) as [[|]|]. Qed.

Lemma metadata_wp (self : JiraAgentManager) (pk pd : string) (h : heap) :
  wp W (_generate_ticket_metadata self pk pd) h
     (fun x h' evs => heap_le h h' /\ x = Ok tt /\ evs = metadata_calls W self h pk pd).
Proof.
  unfold _generate_ticket_metadata, metadata_calls. apply wp_try.
  destruct (product_model self) as [r|]; [|simpl; auto using heap_le_refl].
  apply wp_bind. eapply wp_mono; [|apply run_llm_wp].
  intros x h' evs (Hle & -> & ->). fold (description_prompt pd).
  destruct (nonempty (llm_output W h r (description_prompt pd))) as [out|]; simpl; [|auto].
  rewrite !tag_or_empty_or.
  destruct (W (AddJiraComment pk _)); simpl; rewrite ?app_nil_r; auto.
Qed.

End methods.

(** * The triage run *)

Section triage_run.
Variable W : world.

Lemma run_perform (c : call) (h : heap) : run W (perform c) h = (W c, h, [c]).
Proof. unfold perform. simpl. now destruct (W c). Qed.

(** A task makes the same calls alone and among other tasks. *)
Lemma task_calls_eq (self : JiraAgentManager) (h : heap)
    (args : string * string * string * string) :
  task_calls W self h args = helper_calls W self h args.
Proof.
  unfold task_calls. now destruct (wp_run W _ _ _ (helper_wp W self args h)) as [(_ & _ & ->) _].
Qed.

Lemma task_wp (self : JiraAgentManager) (h : heap)
    (args : string * string * string * string) :
  wp W (_check_issue_and_link_helper self args) h
     (fun _ _ evs => evs = task_calls W self h args).
Proof.
  eapply wp_mono; [|apply helper_wp]. intros x h' evs (_ & _ & ->).
  now rewrite task_calls_eq.
Qed.

Lemma reports_related_eq (self : JiraAgentManager) (h : heap) (ticket1 ticket2 : string) :
  reports_related W self h ticket1 ticket2 = check_verdict W self h ticket1 ticket2.
Proof.
  unfold reports_related.
  now destruct (wp_run W _ _ _ (check_wp W self ticket1 ticket2 h)) as [(_ & -> & _) _].
Qed.

Lemma find_related_sound (sched : list nat) (self : JiraAgentManager)
    (pk pd : string) (corpus : gmap string string) (h : heap) :
  outcome (_find_related_tickets W sched self pk pd corpus h) = Ok tt /\
  calls (_find_related_tickets W sched self pk pd corpus h)
    ≡ₚ concat (task_calls W self h <$> task_args pk pd corpus) /\
  heap_le h (final_heap (_find_related_tickets W sched self pk pd corpus h)).
Proof.
  unfold _find_related_tickets, M_try. fold (task_args pk pd corpus).
  destruct (executor_map_sound W sched (_check_issue_and_link_helper self)
              (task_args pk pd corpus) (task_calls W self h) h) as (Ho & Hc & Hh).
  { intros a _. apply task_wp. }
  destruct (executor_map W sched (_check_issue_and_link_helper self)
              (task_args pk pd corpus) h) as [[x h'] tr].
  unfold outcome, calls, final_heap in *. simpl in *. subst x. auto.
Qed.

Lemma llm_output_later (h h' : heap) (r : task_ref) (input : string) :
  heap_le h h' -> llm_output W h' r input = llm_output W h r input.
Proof. intros H. unfold llm_output. now rewrite (heap_le_effective _ _ r H). Qed.

Lemma metadata_calls_later (self : JiraAgentManager) (h h' : heap) (pk pd : string) :
  heap_le h h' -> metadata_calls W self h' pk pd = metadata_calls W self h pk pd.
Proof.
  intros H. unfold metadata_calls. destruct (product_model self) as [r|]; [|reflexivity].
  now rewrite (llm_output_later _ _ _ _ H), (heap_le_effective _ _ r H).
Qed.

Lemma metadata_sound (self : JiraAgentManager) (pk pd : string) (h : heap) :
  outcome (run W (_generate_ticket_metadata self pk pd) h) = Ok tt /\
  calls (run W (_generate_ticket_metadata self pk pd) h) = metadata_calls W self h pk pd /\
  heap_le h (final_heap (run W (_generate_ticket_metadata self pk pd) h)).
Proof.
  destruct (wp_run W _ _ _ (metadata_wp W self pk pd h)) as [(_ & Ho & Hc) Hle]. auto.
Qed.

(** **** The shape of a triage run *)

Lemma triage_search_raises (sched : list nat) (self : JiraAgentManager) (tn : string)
    (h : heap) (e : exn) :
  W GetAllTickets = Err e ->
  _triage_tool W sched self tn h =
  (Ok ("Error during triage: " +:+ str_exn e), h, [GetAllTickets]).
Proof.
  intros HW. unfold _triage_tool, M_try, M_bind. rewrite run_perform, HW. reflexivity.
Qed.

Lemma triage_no_corpus (sched : list nat) (self : JiraAgentManager) (tn : string)
    (h : heap) (all : option (gmap string string)) :
  W GetAllTickets = Ok all -> nonempty_dict all = None ->
  _triage_tool W sched self tn h = (Ok "No tickets found for triage", h, [GetAllTickets]).
Proof.
  intros HW Hall. unfold _triage_tool, M_try, M_bind. rewrite run_perform, HW, Hall.
  reflexivity.
Qed.

Lemma triage_no_target (sched : list nat) (self : JiraAgentManager) (tn : string)
    (h : heap) (all : option (gmap string string)) (corpus : gmap string string) :
  W GetAllTickets = Ok all -> nonempty_dict all = Some corpus ->
  (exists e, W (GetTicketData tn) = Err e) \/ W (GetTicketData tn) = Ok None ->
  calls (_triage_tool W sched self tn h) = [GetAllTickets; GetTicketData tn] /\
  final_heap (_triage_tool W sched self tn h) = h.
Proof.
  intros HW Hall Ht. unfold _triage_tool, M_try, M_bind.
  rewrite run_perform, HW, Hall, run_perform.
  destruct Ht as [[e ->] | ->]; split; reflexivity.
Qed.

Lemma triage_linked (sched : list nat) (self : JiraAgentManager) (tn : string) (h : heap)
    (all : option (gmap string string)) (corpus : gmap string string) (pk pd : string) :
  W GetAllTickets = Ok all -> nonempty_dict all = Some corpus ->
  W (GetTicketData tn) = Ok (Some (pk, pd)) ->
  exists tr_link h1,
    tr_link ≡ₚ concat (task_calls W self h <$> task_args pk pd corpus) /\
    heap_le h h1 /\
    heap_le h1 (final_heap (_triage_tool W sched self tn h)) /\
    outcome (_triage_tool W sched self tn h) = Ok "Task complete" /\
    calls (_triage_tool W sched self tn h) =
      [GetAllTickets; GetTicketData tn] ++ tr_link ++ metadata_calls W self h pk pd.
Proof.
  intros HW Hall Ht. unfold _triage_tool, M_try, M_bind.
  rewrite run_perform, HW, Hall, run_perform, Ht.
  destruct (find_related_sound sched self pk pd corpus h) as (Ho & Hc & Hle).
  destruct (_find_related_tickets W sched self pk pd corpus h) as [[x h1] tr_link].
  unfold outcome, calls, final_heap in *. simpl in *. subst x.
  destruct (metadata_sound self pk pd h1) as (Ho' & Hc' & Hle').
  destruct (run W (_generate_ticket_metadata self pk pd) h1) as [[y h2] tr_meta].
  unfold outcome, calls, final_heap in *. simpl in *. subst y tr_meta.
  exists tr_link, h1. rewrite app_nil_r, (metadata_calls_later _ _ _ _ _ Hle). auto.
Qed.

(** A triage run stops after one of the two fetches, leaving the store
    as it was, or it reaches the link phase. *)
Lemma triage_shape (sched : list nat) (self : JiraAgentManager) (tn : string) (h : heap) :
  (final_heap (_triage_tool W sched self tn h) = h /\
   (calls (_triage_tool W sched self tn h) = [GetAllTickets] \/
    calls (_triage_tool W sched self tn h) = [GetAllTickets; GetTicketData tn])) \/
  (exists all corpus pk pd,
      W GetAllTickets = Ok all /\ nonempty_dict all = Some corpus /\
      W (GetTicketData tn) = Ok (Some (pk, pd))).
Proof.
  destruct (W GetAllTickets) as [all|e] eqn:Hall.
  2: { left. rewrite (triage_search_raises sched self tn h e Hall). auto. }
  destruct (nonempty_dict all) as [corpus|] eqn:Hc.
  2: { left. rewrite (triage_no_corpus sched self tn h all Hall Hc). auto. }
  destruct (W (GetTicketData tn)) as [[[pk pd]|]|e] eqn:Ht.
  - right. exists all, corpus, pk, pd. auto.
  - left. destruct (triage_no_target sched self tn h all corpus Hall Hc (or_intror Ht)).
    auto.
  - left. destruct (triage_no_target sched self tn h all corpus Hall Hc) as [? ?]; eauto.
Qed.

End triage_run.

(** * Counting calls *)

Section counting.

Lemma count_calls_app (f : call -> bool) (l1 l2 : list call) :
  count_calls f (l1 ++ l2) = count_calls f l1 + count_calls f l2.
Proof. induction l1 as [|c l1 IH]; simpl; [reflexivity|]. rewrite IH. lia. Qed.

Lemma count_calls_perm (f : call -> bool) (l1 l2 : list call) :
  l1 ≡ₚ l2 -> count_calls f l1 = count_calls f l2.
Proof. induction 1; simpl; lia. Qed.

Lemma count_calls_concat {X} (f : call -> bool) (g : X -> list call) (l : list X) :
  count_calls f (concat (g <$> l)) = sum_list_with (fun x => count_calls f (g x)) l.
Proof.
  induction l as [|x l IH]; csimpl; [reflexivity|]. now rewrite count_calls_app, IH.
Qed.

Lemma count_calls_none (f : call -> bool) (l : list call) :
  Forall (fun c => f c = false) l -> count_calls f l = 0.
Proof. induction 1 as [|c l Hc _ IH]; simpl; [reflexivity|]. now rewrite Hc, IH. Qed.

(** A sum over the corpus to which only the entry of [b] contributes. *)
Lemma sum_corpus_at (corpus : gmap string string) (b : string) (g : string * string -> nat) :
  (forall k d, k <> b -> g (k, d) = 0) ->
  sum_list_with g (map_to_list corpus) =
  match corpus !! b with Some d => g (b, d) | None => 0 end.
Proof.
  intros Hg. induction corpus as [|k d m Hk IH] using map_ind.
  - now rewrite map_to_list_empty, lookup_empty.
  - rewrite (map_to_list_insert _ _ _ Hk). simpl. rewrite IH.
    destruct (decide (k = b)) as [->|Hne].
    + rewrite lookup_insert_eq, Hk. lia.
    + rewrite lookup_insert_ne by assumption. now rewrite (Hg _ _ Hne).
Qed.

(** The number of entries of the corpus other than that of [pk]. *)
Lemma sum_corpus_except (corpus : gmap string string) (pk : string) :
  sum_list_with (fun kd : string * string => if String.eqb kd.1 pk then 0 else 1)
    (map_to_list corpus) =
  size corpus - (if corpus !! pk is Some _ then 1 else 0).
Proof.
  induction corpus as [|k d m Hk IH] using map_ind.
  - now rewrite map_to_list_empty, map_size_empty.
  - rewrite (map_to_list_insert _ _ _ Hk), (map_size_insert_None _ _ _ Hk). simpl.
    rewrite IH. destruct (String.eqb k pk) eqn:E.
    + apply String.eqb_eq in E. subst k. rewrite lookup_insert_eq, Hk. lia.
    + apply String.eqb_neq in E. rewrite lookup_insert_ne by assumption.
      destruct (m !! pk) eqn:Hpk; [|lia].
      assert (size m <> 0); [|lia].
      intros Hz. apply map_size_empty_iff in Hz. subst m. now rewrite lookup_empty in Hpk.
Qed.

End counting.

(** * Relatedness checks and links *)

Section links.
Variable W : world.
Variable self : JiraAgentManager.
Variable h : heap.
Variables pk pd : string.

Lemma check_calls_no_link (a b t1 t2 : string) :
  count_calls (is_link a b) (check_calls self h t1 t2) = 0.
Proof. unfold check_calls. now destruct (linking_model self). Qed.

(** The task of one entry calls [link] once when the entry is a candidate
    reported as related, and not at all otherwise. *)
Lemma task_link_count (a b k d : string) :
  count_calls (is_link a b) (task_calls W self h (k, d, pk, pd)) =
  if bool_decide (a = pk /\ b = k /\ k <> pk /\ reports_related W self h pd d = true)
  then 1 else 0.
Proof.
  rewrite task_calls_eq, reports_related_eq. unfold helper_calls.
  destruct (String.eqb k pk) eqn:Ek.
  - apply String.eqb_eq in Ek. rewrite bool_decide_eq_false_2; [reflexivity|]. tauto.
  - apply String.eqb_neq in Ek. rewrite count_calls_app, check_calls_no_link.
    destruct (check_verdict W self h pd d); simpl.
    + destruct (String.eqb pk a) eqn:Ea; destruct (String.eqb k b) eqn:Eb; simpl;
        rewrite ?String.eqb_eq, ?String.eqb_neq in *.
      * rewrite bool_decide_eq_true_2; [reflexivity|]. subst. tauto.
      * rewrite bool_decide_eq_false_2; [reflexivity|]. intros (_ & -> & _). congruence.
      * rewrite bool_decide_eq_false_2; [reflexivity|]. intros (-> & _). congruence.
      * rewrite bool_decide_eq_false_2; [reflexivity|]. intros (-> & _). congruence.
    + rewrite bool_decide_eq_false_2; [reflexivity|]. intros (_ & _ & _ & ?). congruence.
Qed.

Lemma elem_of_related_set (corpus : gmap string string) (k : string) :
  k ∈ related_set W self h pk pd corpus <->
  exists d, corpus !! k = Some d /\ k <> pk /\ reports_related W self h pd d = true.
Proof.
  unfold related_set. rewrite elem_of_dom. unfold is_Some.
  setoid_rewrite map_lookup_filter_Some. simpl. naive_solver.
Qed.

(** The tasks of the pool together call [link] once for every member of
    the related set, and for nothing else. *)
Lemma tasks_link_count (corpus : gmap string string) (a b : string) :
  count_calls (is_link a b) (concat (task_calls W self h <$> task_args pk pd corpus)) =
  if bool_decide (a = pk /\ b ∈ related_set W self h pk pd corpus) then 1 else 0.
Proof.
  unfold task_args. rewrite <- list_fmap_compose, count_calls_concat.
  rewrite (sum_corpus_at corpus b).
  - destruct (corpus !! b) as [d|] eqn:Hb; simpl.
    + rewrite task_link_count. apply (f_equal (fun x : bool => if x then 1 else 0)).
      apply bool_decide_ext. rewrite elem_of_related_set. naive_solver.
    + rewrite bool_decide_eq_false_2; [reflexivity|].
      rewrite elem_of_related_set. naive_solver.
  - intros k d Hk. simpl. rewrite task_link_count.
    rewrite bool_decide_eq_false_2; [reflexivity|]. naive_solver.
Qed.

Lemma metadata_calls_no_link (a b : string) :
  count_calls (is_link a b) (metadata_calls W self h pk pd) = 0.
Proof.
  unfold metadata_calls. destruct (product_model self); [|reflexivity]. simpl.
  now destruct (nonempty _).
Qed.

End links.

Lemma nonempty_dict_Some (corpus : gmap string string) :
  corpus <> ∅ -> nonempty_dict (Some corpus) = Some corpus.
Proof. intros H. unfold nonempty_dict. now rewrite decide_False. Qed.

Lemma nonempty_dict_empty : nonempty_dict (Some ∅) = None.
Proof. unfold nonempty_dict. now rewrite decide_True. Qed.

(** C1: in a triage run, for the set S of candidate keys that the
    relatedness classifier reports as related to the target, [link] is
    called exactly once for (target, k) for each k in S, and is not called
    with any other pair of arguments. *)
Theorem link_called_once_per_related (W : world) (sched : list nat)
    (self : JiraAgentManager) (tn : string) (h : heap)
    (corpus : gmap string string) (pk pd : string) :
  W GetAllTickets = Ok (Some corpus) ->
  W (GetTicketData tn) = Ok (Some (pk, pd)) ->
  forall a b,
    count_calls (is_link a b) (calls (_triage_tool W sched self tn h)) =
    if bool_decide (a = pk /\ b ∈ related_set W self h pk pd corpus) then 1 else 0.
Proof.
  intros Hall Ht a b. destruct (decide (corpus = ∅)) as [->|Hne].
  - rewrite (triage_no_corpus W sched self tn h _ Hall nonempty_dict_empty).
    rewrite bool_decide_eq_false_2; [reflexivity|].
    rewrite elem_of_related_set. setoid_rewrite lookup_empty. naive_solver.
  - destruct (triage_linked W sched self tn h _ _ _ _ Hall (nonempty_dict_Some _ Hne) Ht)
      as (tr_link & h1 & Hperm & _ & _ & _ & ->).
    rewrite !count_calls_app, (count_calls_perm _ _ _ Hperm), tasks_link_count,
      metadata_calls_no_link. simpl. lia.
Qed.

Lemma link_called_once_per_related_witness :
  sample_world GetAllTickets = Ok (Some sample_corpus) /\
  sample_world (GetTicketData "OPS-1") = Ok (Some ("OPS-1", "login fails")) /\
  count_calls (is_link "OPS-1" "OPS-2")
    (calls (_triage_tool sample_world sample_schedule sample_manager "OPS-1" sample_heap)) = 1 /\
  count_calls (is_link "OPS-1" "OPS-3")
    (calls (_triage_tool sample_world sample_schedule sample_manager "OPS-1" sample_heap)) = 0.
Proof.
  split; [reflexivity|]. split; [reflexivity|]. split.
  - rewrite (link_called_once_per_related sample_world sample_schedule sample_manager
               "OPS-1" sample_heap sample_corpus "OPS-1" "login fails" eq_refl eq_refl).
    vm_compute. reflexivity.
  - rewrite (link_called_once_per_related sample_world sample_schedule sample_manager
               "OPS-1" sample_heap sample_corpus "OPS-1" "login fails" eq_refl eq_refl).
    vm_compute. reflexivity.
Defined.

(** C2: in every triage run, [link] is never called with the same ticket
    as both arguments. *)
Theorem no_self_link (W : world) (sched : list nat) (self : JiraAgentManager)
    (tn : string) (h : heap) (a : string) :
  count_calls (is_link a a) (calls (_triage_tool W sched self tn h)) = 0.
Proof.
  destruct (triage_shape W sched self tn h)
    as [[_ [-> | ->]] | (all & corpus & pk & pd & Hall & Hc & Ht)];
    [reflexivity | reflexivity |].
  destruct (triage_linked W sched self tn h _ _ _ _ Hall Hc Ht)
    as (tr_link & h1 & Hperm & _ & _ & _ & ->).
  rewrite !count_calls_app, (count_calls_perm _ _ _ Hperm), tasks_link_count,
    metadata_calls_no_link. simpl.
  rewrite bool_decide_eq_false_2; [reflexivity|].
  rewrite elem_of_related_set. naive_solver.
Qed.

(** * Relatedness checks *)

Section checks.
Variable W : world.
Variable self : JiraAgentManager.
Variable h : heap.
Variables pk pd : string.
Hypothesis Hself : initialized self.

Lemma task_checks (k d : string) :
  filter (fun c => is_invoke_on linking_ref c = true) (task_calls W self h (k, d, pk, pd)) =
  if String.eqb k pk then [] else [check_of h pd (k, d)].
Proof.
  rewrite task_calls_eq. unfold helper_calls, check_calls. destruct Hself as [-> _].
  destruct (String.eqb k pk); [reflexivity|].
  now destruct (check_verdict W _ h pd d).
Qed.

Lemma tasks_checks (l : list (string * string)) :
  filter (fun c => is_invoke_on linking_ref c = true)
    (concat ((fun kd => task_calls W self h (kd.1, kd.2, pk, pd)) <$> l)) =
  check_of h pd <$> filter (fun kd => kd.1 <> pk) l.
Proof.
  induction l as [|[k d] l IH]; [reflexivity|]. csimpl.
  rewrite filter_app, IH, task_checks, filter_cons. simpl.
  destruct (String.eqb k pk) eqn:E.
  - apply String.eqb_eq in E. now rewrite decide_False by tauto.
  - apply String.eqb_neq in E. now rewrite decide_True by assumption.
Qed.

Lemma metadata_calls_no_check :
  filter (fun c => is_invoke_on linking_ref c = true) (metadata_calls W self h pk pd) = [].
Proof.
  unfold metadata_calls. destruct Hself as [_ ->].
  now destruct (nonempty _).
Qed.

Lemma length_filter_except (corpus : gmap string string) :
  length (filter (fun kd : string * string => kd.1 <> pk) (map_to_list corpus)) =
  size corpus - (if corpus !! pk is Some _ then 1 else 0).
Proof.
  rewrite <- sum_corpus_except. generalize (map_to_list corpus). intros l.
  induction l as [|[k d] l IH]; [reflexivity|]. rewrite filter_cons. simpl.
  destruct (String.eqb k pk) eqn:E.
  - apply String.eqb_eq in E. now rewrite decide_False by tauto.
  - apply String.eqb_neq in E. rewrite decide_True by assumption. simpl. now rewrite IH.
Qed.

Lemma count_calls_filter (f : call -> bool) (tr : list call) :
  count_calls f tr = length (filter (fun c => f c = true) tr).
Proof.
  induction tr as [|c tr IH]; [reflexivity|]. rewrite filter_cons. simpl.
  destruct (f c); simpl; now rewrite IH.
Qed.

Lemma task_args_calls (corpus : gmap string string) :
  task_calls W self h <$> task_args pk pd corpus =
  (fun kd => task_calls W self h (kd.1, kd.2, pk, pd)) <$> map_to_list corpus.
Proof.
  unfold task_args. rewrite <- list_fmap_compose. apply list_fmap_ext.
  now intros _ [k d] _.
Qed.

End checks.

(** The pool gets one task per entry of the corpus, the target's entry
    included; the task of the target's own entry makes no call. *)
Lemma tasks_submitted (pk pd : string) (corpus : gmap string string) :
  length (task_args pk pd corpus) = size corpus.
Proof. unfold task_args. now rewrite length_fmap, length_map_to_list. Qed.

Lemma target_task_idle (W : world) (self : JiraAgentManager) (h : heap) (pk pd d : string) :
  task_calls W self h (pk, d, pk, pd) = [].
Proof. rewrite task_calls_eq. unfold helper_calls. now rewrite String.eqb_refl. Qed.

(** The sample run under the sample schedule, and with the tasks run one
    after the other. *)
Example sample_run_interleaved :
  calls (_triage_tool sample_world sample_schedule sample_manager "OPS-1" sample_heap) =
  [GetAllTickets; GetTicketData "OPS-1";
   check_of sample_heap "login fails" ("OPS-2", "login error");
   check_of sample_heap "login fails" ("OPS-3", "dark mode");
   LinkJiraIssue "OPS-1" "OPS-2";
   Invoke product_ref (effective_chain (deref sample_heap product_ref))
     (description_prompt "login fails");
   AddJiraComment "OPS-1"
     (four_line_comment "" "" "High" "")].
Proof. vm_compute. reflexivity. Qed.

Example sample_run_sequential :
  calls (_triage_tool sample_world [] sample_manager "OPS-1" sample_heap) =
  [GetAllTickets; GetTicketData "OPS-1";
   check_of sample_heap "login fails" ("OPS-3", "dark mode");
   check_of sample_heap "login fails" ("OPS-2", "login error");
   LinkJiraIssue "OPS-1" "OPS-2";
   Invoke product_ref (effective_chain (deref sample_heap product_ref))
     (description_prompt "login fails");
   AddJiraComment "OPS-1"
     (four_line_comment "" "" "High" "")].
Proof. vm_compute. reflexivity. Qed.

(** C3: in a triage run over a corpus of N tickets, the number of
    relatedness checks made is N minus 1 if the target key is in the corpus
    and N otherwise; the checks are, in some order, exactly one for each
    entry whose key differs from the target key, so the target is not
    checked against itself. *)
Theorem relatedness_checks_dispatched (W : world) (sched : list nat)
    (self : JiraAgentManager) (tn : string) (h : heap)
    (corpus : gmap string string) (pk pd : string) :
  initialized self ->
  W GetAllTickets = Ok (Some corpus) ->
  W (GetTicketData tn) = Ok (Some (pk, pd)) ->
  count_calls (is_invoke_on linking_ref) (calls (_triage_tool W sched self tn h)) =
    size corpus - (if corpus !! pk is Some _ then 1 else 0) /\
  filter (fun c => is_invoke_on linking_ref c = true) (calls (_triage_tool W sched self tn h))
    ≡ₚ check_of h pd <$> filter (fun kd => kd.1 <> pk) (map_to_list corpus).
Proof.
  intros Hself Hall Ht.
  assert (filter (fun c => is_invoke_on linking_ref c = true)
            (calls (_triage_tool W sched self tn h))
          ≡ₚ check_of h pd <$> filter (fun kd => kd.1 <> pk) (map_to_list corpus)) as Hperm.
  { destruct (decide (corpus = ∅)) as [->|Hne].
    - rewrite (triage_no_corpus W sched self tn h _ Hall nonempty_dict_empty).
      now rewrite map_to_list_empty.
    - destruct (triage_linked W sched self tn h _ _ _ _ Hall (nonempty_dict_Some _ Hne) Ht)
        as (tr_link & h1 & Hperm & _ & _ & _ & ->).
      rewrite !filter_app, (metadata_calls_no_check W self h pk pd Hself), app_nil_r.
      assert (filter (fun c => is_invoke_on linking_ref c = true)
                [GetAllTickets; GetTicketData tn] = []) as -> by reflexivity.
      rewrite app_nil_l.
      rewrite Hperm, task_args_calls, (tasks_checks W self h pk pd Hself). reflexivity. }
  split; [|exact Hperm].
  rewrite count_calls_filter, Hperm, length_fmap. apply length_filter_except.
Qed.

Lemma relatedness_checks_dispatched_witness :
  initialized sample_manager /\
  sample_world GetAllTickets = Ok (Some sample_corpus) /\
  sample_world (GetTicketData "OPS-1") = Ok (Some ("OPS-1", "login fails")) /\
  count_calls (is_invoke_on linking_ref)
    (calls (_triage_tool sample_world sample_schedule sample_manager "OPS-1" sample_heap)) = 2.
Proof.
  split; [split; reflexivity|]. split; [reflexivity|]. split; [reflexivity|].
  destruct (relatedness_checks_dispatched sample_world sample_schedule sample_manager
              "OPS-1" sample_heap sample_corpus "OPS-1" "login fails"
              (conj eq_refl eq_refl) eq_refl eq_refl) as [-> _].
  vm_compute. reflexivity.
Defined.

(** * The relatedness classifier *)

(** C4: the pairwise relatedness check never raises, and it returns true
    exactly when the model returned an output whose [related] tag is the
    string True; every other extracted value, a missing tag, a missing
    output and an exception of the model give false. *)
Theorem relatedness_check_true_iff (W : world) (self : JiraAgentManager) (h : heap)
    (ticket1 ticket2 : string) :
  exists b,
    outcome (run W (_llm_check_ticket_match self ticket1 ticket2) h) = Ok b /\
    (b = true <->
     exists r out,
       linking_model self = Some r /\
       W (Invoke r (effective_chain (deref h r)) (relatedness_prompt ticket1 ticket2))
         = Ok (Some out) /\
       extract_tag_helper out "related" = Some "True").
Proof.
  destruct (wp_run W _ _ _ (check_wp W self ticket1 ticket2 h)) as [(_ & Ho & _) _].
  eexists. split; [exact Ho|]. unfold check_verdict, verdict_of, llm_output.
  destruct (linking_model self) as [r|]; [|split; [discriminate|naive_solver]].
  destruct (W (Invoke r (effective_chain (deref h r)) (relatedness_prompt ticket1 ticket2)))
    as [[[|c s]|]|e] eqn:HW; simpl.
  - split; [discriminate|]. intros (r' & out & [= <-] & Hout & Hx).
    rewrite HW in Hout. injection Hout as <-. discriminate.
  - rewrite bool_decide_eq_true. split.
    + intros Hx. exists r, (String c s). auto.
    + intros (r' & out & [= <-] & Hout & Hx). rewrite HW in Hout. now injection Hout as <-.
  - split; [discriminate|]. intros (r' & out & [= <-] & Hout & _).
    rewrite HW in Hout. discriminate.
  - split; [discriminate|]. intros (r' & out & [= <-] & Hout & _).
    rewrite HW in Hout. discriminate.
Qed.

(** * The aborted run *)

(** C6: when the tracker returns an empty corpus, triage returns the
    message that no tickets were found, as a value, and calls neither
    [link] nor [comment]. *)
Theorem empty_corpus_aborts (W : world) (sched : list nat) (self : JiraAgentManager)
    (tn : string) (h : heap) :
  W GetAllTickets = Ok (Some ∅) ->
  outcome (_triage_tool W sched self tn h) = Ok "No tickets found for triage" /\
  count_calls is_any_link (calls (_triage_tool W sched self tn h)) = 0 /\
  count_calls is_comment (calls (_triage_tool W sched self tn h)) = 0.
Proof.
  intros Hall. rewrite (triage_no_corpus W sched self tn h _ Hall nonempty_dict_empty).
  repeat split.
Qed.

Lemma empty_corpus_aborts_witness :
  empty_world GetAllTickets = Ok (Some ∅) /\
  outcome (_triage_tool empty_world sample_schedule sample_manager "OPS-1" sample_heap)
    = Ok "No tickets found for triage" /\
  count_calls is_any_link
    (calls (_triage_tool empty_world sample_schedule sample_manager "OPS-1" sample_heap)) = 0 /\
  count_calls is_comment
    (calls (_triage_tool empty_world sample_schedule sample_manager "OPS-1" sample_heap)) = 0.
Proof.
  split; [reflexivity|].
  apply (empty_corpus_aborts empty_world sample_schedule sample_manager "OPS-1" sample_heap).
  reflexivity.
Defined.

(** * Metadata synthesis *)

Lemma sum_list_with_zero {X} (f : X -> nat) (l : list X) :
  (forall x, f x = 0) -> sum_list_with f l = 0.
Proof. intros Hf. induction l as [|x l IH]; simpl; [reflexivity|]. now rewrite Hf, IH. Qed.

Section metadata.
Variable W : world.
Variable self : JiraAgentManager.
Variable h : heap.
Variables pk pd : string.

Lemma metadata_calls_no_comment (r : task_ref) :
  product_model self = Some r ->
  nonempty (llm_output W h r (description_prompt pd)) = None ->
  metadata_calls W self h pk pd =
  [Invoke r (effective_chain (deref h r)) (description_prompt pd)].
Proof. intros Hr Hn. unfold metadata_calls. now rewrite Hr, Hn. Qed.

Lemma metadata_calls_comment (r : task_ref) (out : string) :
  product_model self = Some r ->
  nonempty (llm_output W h r (description_prompt pd)) = Some out ->
  metadata_calls W self h pk pd =
  [Invoke r (effective_chain (deref h r)) (description_prompt pd);
   AddJiraComment pk
     (four_line_comment (tag_or_empty out "user_stories")
        (tag_or_empty out "acceptance_criteria")
        (tag_or_empty out "priority") (tag_or_empty out "thought"))].
Proof. intros Hr Hn. unfold metadata_calls. now rewrite Hr, Hn. Qed.

Lemma no_output_nonempty (r : task_ref) :
  no_output (W (Invoke r (effective_chain (deref h r)) (description_prompt pd))) ->
  nonempty (llm_output W h r (description_prompt pd)) = None.
Proof.
  unfold no_output, llm_output. intros [-> | [-> | [e ->]]]; reflexivity.
Qed.

End metadata.

(** C5: metadata synthesis never fails.  For a non-empty output of the
    model, one comment is posted on the target: the four lines
    user_stories, acceptance_criteria, priority, thought, each with the
    value of its tag or the empty string when the tag is absent.  For the
    output [<priority>High<priority>] the comment has priority High and
    three empty fields.  Without an output no comment is posted, and the
    triage run still ends with its completion message. *)
Theorem metadata_comment (W : world) (self : JiraAgentManager) (r : task_ref)
    (pk pd : string) (h : heap) :
  product_model self = Some r ->
  let reply := W (Invoke r (effective_chain (deref h r)) (description_prompt pd)) in
  let m := run W (_generate_ticket_metadata self pk pd) h in
  outcome m = Ok tt /\
  (forall c s,
      reply = Ok (Some (String c s)) ->
      calls m =
      [Invoke r (effective_chain (deref h r)) (description_prompt pd);
       AddJiraComment pk
         (four_line_comment (tag_or_empty (String c s) "user_stories")
            (tag_or_empty (String c s) "acceptance_criteria")
            (tag_or_empty (String c s) "priority")
            (tag_or_empty (String c s) "thought"))]) /\
  (reply = Ok (Some "<priority>High<priority>") ->
   calls m =
   [Invoke r (effective_chain (deref h r)) (description_prompt pd);
    AddJiraComment pk "user_stories: 
acceptance_criteria: 
priority: High
thought: "]) /\
  (no_output reply ->
   calls m = [Invoke r (effective_chain (deref h r)) (description_prompt pd)] /\
   forall sched tn corpus,
     W GetAllTickets = Ok (Some corpus) -> corpus <> ∅ ->
     W (GetTicketData tn) = Ok (Some (pk, pd)) ->
     outcome (_triage_tool W sched self tn h) = Ok "Task complete" /\
     count_calls is_comment (calls (_triage_tool W sched self tn h)) = 0).
Proof.
  intros Hr reply m. subst reply m.
  destruct (metadata_sound W self pk pd h) as (Ho & -> & _).
  split; [exact Ho|]. split; [|split].
  - intros c s HW. apply metadata_calls_comment; [assumption|].
    unfold llm_output. now rewrite HW.
  - intros HW. rewrite (metadata_calls_comment W self h pk pd r "<priority>High<priority>" Hr).
    + reflexivity.
    + unfold llm_output. now rewrite HW.
  - intros Hno. pose proof (no_output_nonempty W h pd r Hno) as Hn.
    split; [now apply metadata_calls_no_comment|].
    intros sched tn corpus Hall Hne Ht.
    destruct (triage_linked W sched self tn h _ _ _ _ Hall (nonempty_dict_Some _ Hne) Ht)
      as (tr_link & h1 & Hperm & _ & _ & -> & ->).
    split; [reflexivity|].
    rewrite !count_calls_app, (count_calls_perm _ _ _ Hperm).
    rewrite (metadata_calls_no_comment W self h pk pd r Hr Hn). simpl.
    rewrite count_calls_concat, sum_list_with_zero; [reflexivity|].
    intros args. rewrite task_calls_eq. destruct args as [[[k d] pk'] pd'].
    unfold helper_calls, check_calls. destruct (String.eqb k pk'); [reflexivity|].
    rewrite count_calls_app.
    destruct (linking_model self); destruct (check_verdict W self h pd' d); reflexivity.
Qed.

Lemma metadata_comment_witness :
  product_model sample_manager = Some product_ref /\
  calls (run sample_world (_generate_ticket_metadata sample_manager "OPS-1" "login fails")
           sample_heap) =
  [Invoke product_ref (effective_chain (deref sample_heap product_ref))
     (description_prompt "login fails");
   AddJiraComment "OPS-1" "user_stories: 
acceptance_criteria: 
priority: High
thought: "] /\
  calls (run silent_world (_generate_ticket_metadata sample_manager "OPS-1" "login fails")
           sample_heap) =
  [Invoke product_ref (effective_chain (deref sample_heap product_ref))
     (description_prompt "login fails")] /\
  outcome (_triage_tool silent_world sample_schedule sample_manager "OPS-1" sample_heap)
    = Ok "Task complete".
Proof.
  split; [reflexivity|]. split; [|split].
  - destruct (metadata_comment sample_world sample_manager product_ref "OPS-1" "login fails"
                sample_heap eq_refl) as (_ & _ & H & _).
    apply H. reflexivity.
  - destruct (metadata_comment silent_world sample_manager product_ref "OPS-1" "login fails"
                sample_heap eq_refl) as (_ & _ & _ & H).
    apply H. right. right. eexists. reflexivity.
  - destruct (metadata_comment silent_world sample_manager product_ref "OPS-1" "login fails"
                sample_heap eq_refl) as (_ & _ & _ & H).
    destruct H as [_ H]; [right; right; eexists; reflexivity|].
    apply (H sample_schedule "OPS-1" sample_corpus); [reflexivity| |reflexivity].
    intros Hempty. apply (f_equal (lookup "OPS-1")) in Hempty. vm_compute in Hempty.
    discriminate.
Defined.

(** * The order of the two phases *)

Section phases.
Variable W : world.
Variable self : JiraAgentManager.
Variable h : heap.
Variables pk pd : string.
Hypothesis Hself : initialized self.

Lemma task_calls_link_phase (args : string * string * string * string) :
  Forall (fun c => is_link_phase_call c = true /\ is_metadata_phase_call c = false)
    (task_calls W self h args).
Proof.
  rewrite task_calls_eq. destruct args as [[[k d] pk'] pd'].
  unfold helper_calls, check_calls. destruct Hself as [-> _].
  destruct (String.eqb k pk'); [constructor|].
  destruct (check_verdict W _ h pd' d); repeat constructor.
Qed.

Lemma metadata_calls_metadata_phase :
  Forall (fun c => is_metadata_phase_call c = true /\ is_link_phase_call c = false)
    (metadata_calls W self h pk pd) /\
  count_calls (is_invoke_on product_ref) (metadata_calls W self h pk pd) = 1.
Proof.
  unfold metadata_calls. destruct Hself as [_ ->].
  destruct (nonempty _); split; repeat constructor.
Qed.

End phases.

(** C7: in a triage run that reaches the link phase, the calls made are:
    the two fetches, then all calls of all relatedness tasks (every task
    has run to its end), then the calls of metadata synthesis.  No call of
    the metadata phase occurs among those of the link phase, and the
    metadata model is invoked exactly once. *)
Theorem metadata_after_link_phase (W : world) (sched : list nat)
    (self : JiraAgentManager) (tn : string) (h : heap)
    (corpus : gmap string string) (pk pd : string) :
  initialized self ->
  W GetAllTickets = Ok (Some corpus) -> corpus <> ∅ ->
  W (GetTicketData tn) = Ok (Some (pk, pd)) ->
  exists tr_link tr_meta,
    calls (_triage_tool W sched self tn h) =
      [GetAllTickets; GetTicketData tn] ++ tr_link ++ tr_meta /\
    tr_link ≡ₚ concat (task_calls W self h <$> task_args pk pd corpus) /\
    Forall (fun c => is_link_phase_call c = true /\ is_metadata_phase_call c = false)
      tr_link /\
    Forall (fun c => is_metadata_phase_call c = true /\ is_link_phase_call c = false)
      tr_meta /\
    count_calls (is_invoke_on product_ref) tr_meta = 1 /\
    count_calls (is_invoke_on product_ref) (calls (_triage_tool W sched self tn h)) = 1.
Proof.
  intros Hself Hall Hne Ht.
  destruct (triage_linked W sched self tn h _ _ _ _ Hall (nonempty_dict_Some _ Hne) Ht)
    as (tr_link & h1 & Hperm & _ & _ & _ & Hcalls).
  destruct (metadata_calls_metadata_phase W self h pk pd Hself) as [Hmeta Hone].
  assert (Forall (fun c => is_link_phase_call c = true /\ is_metadata_phase_call c = false)
            tr_link) as Hlink.
  { rewrite Hperm. apply Forall_concat, Forall_fmap, Forall_forall.
    intros args _. now apply task_calls_link_phase. }
  exists tr_link, (metadata_calls W self h pk pd).
  split; [exact Hcalls|]. split; [exact Hperm|]. split; [exact Hlink|].
  split; [exact Hmeta|]. split; [exact Hone|].
  rewrite Hcalls, !count_calls_app, Hone. simpl.
  rewrite count_calls_none; [reflexivity|].
  eapply Forall_impl; [exact Hlink|]. intros c [_ Hc].
  unfold is_metadata_phase_call in Hc. now apply orb_false_elim in Hc.
Qed.

Lemma metadata_after_link_phase_witness :
  initialized sample_manager /\
  sample_world GetAllTickets = Ok (Some sample_corpus) /\
  sample_corpus <> ∅ /\
  sample_world (GetTicketData "OPS-1") = Ok (Some ("OPS-1", "login fails")) /\
  count_calls (is_invoke_on product_ref)
    (calls (_triage_tool sample_world sample_schedule sample_manager "OPS-1" sample_heap)) = 1.
Proof.
  assert (sample_corpus <> ∅) as Hne.
  { intros Hempty. apply (f_equal (lookup "OPS-1")) in Hempty. vm_compute in Hempty.
    discriminate. }
  split; [split; reflexivity|]. split; [reflexivity|]. split; [exact Hne|].
  split; [reflexivity|].
  destruct (metadata_after_link_phase sample_world sample_schedule sample_manager "OPS-1"
              sample_heap sample_corpus "OPS-1" "login fails" (conj eq_refl eq_refl)
              eq_refl Hne eq_refl) as (tr_link & tr_meta & _ & _ & _ & _ & _ & H).
  exact H.
Defined.

(** * The shared task objects *)

Section tasks.
Variable W : world.

(** What one uninterrupted [run_llm] does to the store: the first run of
    a task assigns its [_chain], a later run changes nothing. *)
Lemma run_llm_final_heap (r : task_ref) (input : string) (h : heap) :
  final_heap (run W (run_llm r input) h) =
  match _chain (deref h r) with
  | Some _ => h
  | None => store_chain r (built_chain (deref h r)) h
  end.
Proof.
  unfold run_llm, final_heap.
  destruct h as [[sp1 ex1 l1 [c1|]] [sp2 ex2 l2 [c2|]]], r; simpl;
    match goal with |- context [W ?c] => destruct (W c) end; reflexivity.
Qed.

Lemma triage_heap_later (sched : list nat) (self : JiraAgentManager) (tn : string)
    (h : heap) :
  heap_le h (final_heap (_triage_tool W sched self tn h)).
Proof.
  destruct (triage_shape W sched self tn h)
    as [[-> _] | (all & corpus & pk & pd & Hall & Hc & Ht)]; [apply heap_le_refl|].
  destruct (triage_linked W sched self tn h _ _ _ _ Hall Hc Ht)
    as (tr_link & h1 & _ & H1 & H2 & _).
  eapply heap_le_trans; eauto.
Qed.

End tasks.

(** After the sample run both tasks have their chain. *)
Example sample_run_final_heap :
  final_heap (_triage_tool sample_world sample_schedule sample_manager "OPS-1" sample_heap) =
  mkHeap (with_chain (linking_obj sample_heap) (built_chain (linking_obj sample_heap)))
         (with_chain (product_obj sample_heap) (built_chain (product_obj sample_heap))).
Proof. vm_compute. reflexivity. Qed.

(** C9, as stated, fails: the first run of a task assigns its [_chain]
    attribute, which was [None] after construction. *)
Lemma run_llm_assigns_chain :
  _chain (deref sample_heap linking_ref) = None /\
  _chain (deref (final_heap (run sample_world (run_llm linking_ref "x") sample_heap))
            linking_ref)
    = Some (built_chain (deref sample_heap linking_ref)) /\
  deref (final_heap (run sample_world (run_llm linking_ref "x") sample_heap)) linking_ref
    <> deref sample_heap linking_ref.
Proof. split; [reflexivity|]. split; [reflexivity|]. discriminate. Qed.

(** C9, amended: a run of a task never changes the prompt, the examples
    or the model of any task, nor any attribute of the other task.  The
    one attribute it writes is its own [_chain]: the first run sets it to
    the chain built from the unchanged attributes, and a run that finds it
    set leaves the whole store unchanged.  The same holds for a complete
    triage run under every schedule of its workers: the store it leaves
    is a later state of the one it started from. *)
Theorem run_llm_writes_only_chain (W : world) (r : task_ref) (input : string) (h : heap) :
  let h' := final_heap (run W (run_llm r input) h) in
  (forall r',
      system_prompt (deref h' r') = system_prompt (deref h r') /\
      examples (deref h' r') = examples (deref h r') /\
      llm (deref h' r') = llm (deref h r')) /\
  (forall r', r' <> r -> deref h' r' = deref h r') /\
  _chain (deref h' r) = Some (effective_chain (deref h r)) /\
  (_chain (deref h r) <> None -> h' = h) /\
  (forall sched self tn, heap_le h (final_heap (_triage_tool W sched self tn h))).
Proof.
  intros h'. subst h'. rewrite run_llm_final_heap.
  split; [|split; [|split; [|split]]].
  - intros r'. destruct (_chain (deref h r)); [auto|].
    rewrite deref_store_chain. now destruct (task_ref_eqb r r').
  - intros r' Hne. destruct (_chain (deref h r)); [reflexivity|].
    rewrite deref_store_chain. destruct r, r'; simpl; congruence.
  - unfold effective_chain. destruct (_chain (deref h r)) eqn:E; [exact E|].
    rewrite deref_store_chain. now destruct r.
  - intros Hset. now destruct (_chain (deref h r)).
  - intros sched self tn. apply triage_heap_later.
Qed.

Lemma run_llm_writes_only_chain_witness :
  _chain (deref (final_heap (run sample_world (run_llm linking_ref "x") sample_heap))
            linking_ref) <> None /\
  final_heap
    (run sample_world (run_llm linking_ref "y")
       (final_heap (run sample_world (run_llm linking_ref "x") sample_heap)))
  = final_heap (run sample_world (run_llm linking_ref "x") sample_heap).
Proof.
  split; [discriminate|].
  destruct (run_llm_writes_only_chain sample_world linking_ref "y"
              (final_heap (run sample_world (run_llm linking_ref "x") sample_heap)))
    as (_ & _ & _ & H & _).
  apply H. discriminate.
Defined.

(** * The tracker operations *)

Section tracker_operations.
Variable requests_request : request -> result response.
Variable urljoin : string -> string -> string.
Variable http_error_text : response -> string.
Variable py_repr : json -> string.
Variable env : settings.

Local Abbreviation make_request := (_make_request requests_request urljoin http_error_text env).

Lemma configured_dec : {configured env} + {~ configured env}.
Proof.
  unfold configured.
  destruct (truthy (JIRA_INSTANCE_URL env)); [|right; intros (?&?&?); discriminate].
  destruct (truthy (JIRA_USERNAME env)); [|right; intros (?&?&?); discriminate].
  destruct (truthy (JIRA_API_TOKEN env)); [|right; intros (?&?&?); discriminate].
  now left.
Qed.

Lemma make_request_configured method endpoint data timeout :
  configured env ->
  make_request method endpoint data timeout =
  try_except_kind RequestException
    (response ← requests_request (request_for urljoin env method endpoint data timeout);
     _ ← raise_for_status http_error_text response;
     Ok response)
    (fun e => Err (mkExn JiraAPIError ("Jira API request failed: " +:+ str_exn e))).
Proof.
  intros (Hu & Hn & Ht). unfold _make_request, _get_auth.
  now rewrite Hu, Hn, Ht.
Qed.

Lemma make_request_unconfigured method endpoint data timeout :
  ~ configured env ->
  exists msg, make_request method endpoint data timeout = Err (mkExn JiraConfigError msg).
Proof.
  unfold configured, _make_request, _get_auth. intros H.
  destruct (truthy (JIRA_INSTANCE_URL env)); simpl; [|eauto].
  destruct (truthy (JIRA_USERNAME env)); simpl; [|eauto].
  destruct (truthy (JIRA_API_TOKEN env)); simpl; [|eauto].
  tauto.
Qed.

Lemma raise_for_status_cases (r : response) :
  (error_status r /\
   raise_for_status http_error_text r = Err (mkExn RequestException (http_error_text r))) \/
  (~ error_status r /\ raise_for_status http_error_text r = Ok tt).
Proof.
  destruct (decide (400 <= status_code r < 600)%Z) as [H|H].
  - left. split; [exact H|]. now apply raise_for_status_error.
  - right. split; [exact H|]. now apply raise_for_status_ok.
Qed.

Lemma make_request_iff method endpoint data timeout resp :
  make_request method endpoint data timeout = Ok resp <->
  configured env /\
  requests_request (request_for urljoin env method endpoint data timeout) = Ok resp /\
  ~ error_status resp.
Proof.
  split.
  - intros H. destruct configured_dec as [Hc|Hc].
    + split; [exact Hc|]. rewrite (make_request_configured _ _ _ _ Hc) in H.
      destruct (requests_request _) as [r|e]; simpl in H.
      * destruct (raise_for_status_cases r) as [[_ E]|[Hn E]]; rewrite E in H; simpl in H.
        -- discriminate.
        -- now injection H as <-.
      * destruct (decide _); discriminate.
    + destruct (make_request_unconfigured method endpoint data timeout Hc) as (msg & E).
      congruence.
  - intros (Hc & Hreq & Hst). rewrite (make_request_configured _ _ _ _ Hc), Hreq. simpl.
    now rewrite (raise_for_status_ok _ _ Hst).
Qed.

(** X1: the request layer returns a response exactly when the settings
    needed to send a request are present and the transport answers the
    request built from them with a status outside 400..599; the response
    returned is that answer.  When it raises, the error is a
    configuration error (settings missing, whatever the transport does),
    a tracker error (the transport raised a request exception, whose
    text the message carries, or answered with an error status), or an
    exception of the transport that is not a request exception,
    unchanged. *)
Theorem make_request_outcome method endpoint data timeout :
  let req := request_for urljoin env method endpoint data timeout in
  (forall resp,
     make_request method endpoint data timeout = Ok resp <->
     configured env /\ requests_request req = Ok resp /\ ~ error_status resp) /\
  (forall e,
     make_request method endpoint data timeout = Err e ->
     (~ configured env /\ exn_kind_of e = JiraConfigError) \/
     (configured env /\ exn_kind_of e = JiraAPIError /\
      ((exists e', requests_request req = Err e' /\ exn_kind_of e' = RequestException /\
                   exn_msg e = "Jira API request failed: " +:+ exn_msg e') \/
       (exists resp, requests_request req = Ok resp /\ error_status resp))) \/
     (configured env /\ requests_request req = Err e /\
      exn_kind_of e <> RequestException)).
Proof.
  intros req. split; [intros resp; apply make_request_iff|].
  intros e H. destruct configured_dec as [Hc|Hc].
  - right. rewrite (make_request_configured _ _ _ _ Hc) in H. fold req in H.
    destruct (requests_request req) as [r|e'] eqn:E; simpl in H.
    + left. destruct (raise_for_status_cases r) as [[Hst E']|[_ E']];
        rewrite E' in H; simpl in H; [|discriminate].
      injection H as <-. split; [exact Hc|]. split; [reflexivity|]. right. eauto.
    + destruct (decide (exn_kind_of e' = RequestException)) as [Hk|Hk].
      * left. injection H as <-. split; [exact Hc|]. split; [reflexivity|].
        left. exists e'. auto.
      * right. injection H as <-. auto.
  - left. destruct (make_request_unconfigured method endpoint data timeout Hc) as (msg & E).
    rewrite E in H. injection H as <-. auto.
Qed.

Lemma created_outcome (r : result response) (prefix : string) :
  let res :=
    try_except
      (response ← r; if (status_code response =? 201)%Z then Ok true else Ok false)
      (fun e => Err (mkExn JiraAPIError (prefix +:+ str_exn e))) in
  (res = Ok true <-> exists resp, r = Ok resp /\ status_code resp = 201%Z) /\
  (res = Ok false <-> exists resp, r = Ok resp /\ status_code resp <> 201%Z) /\
  (forall e, res = Err e -> exists e', r = Err e' /\ e = mkExn JiraAPIError (prefix +:+ exn_msg e')).
Proof.
  destruct r as [resp|e']; simpl.
  - destruct (Z.eqb_spec (status_code resp) 201) as [E|E]; simpl.
    + split; [|split]; [split; [eauto|reflexivity]|split; [discriminate|]|discriminate].
      intros (resp' & [= <-] & H). contradiction.
    + split; [|split]; [split; [discriminate|]|split; [eauto|reflexivity]|discriminate].
      intros (resp' & [= <-] & H). contradiction.
  - split; [|split].
    + split; [discriminate|]. intros (? & ? & _). discriminate.
    + split; [discriminate|]. intros (? & ? & _). discriminate.
    + intros e [= <-]. eauto.
Qed.

(** X2: linking reports [True] exactly when the settings are present and
    the tracker answers the link request (a POST to the issue-link
    endpoint that names the first argument as inward and the second as
    outward issue) with status 201, and [False] exactly when it answers
    with any other status outside 400..599.  Every failure, a missing
    setting included, surfaces as the tracker error. *)
Theorem link_jira_issue_outcome (inward outward link_type : string) :
  let req := link_request urljoin env inward outward link_type in
  let res := link_jira_issue requests_request urljoin http_error_text env
               inward outward link_type in
  (res = Ok true <->
   configured env /\ exists resp, requests_request req = Ok resp /\ status_code resp = 201%Z) /\
  (res = Ok false <->
   configured env /\
   exists resp, requests_request req = Ok resp /\ ~ error_status resp /\
                status_code resp <> 201%Z) /\
  (forall e, res = Err e -> exn_kind_of e = JiraAPIError).
Proof.
  intros req res. unfold res, link_jira_issue.
  match goal with |- context [try_except (mbind _ ?r) _] =>
    destruct (created_outcome r "Failed to link issues: ") as (Ht & Hf & He) end.
  cbv zeta in Ht, Hf, He. split; [|split].
  - rewrite Ht. split.
    + intros (resp & H & Hst). apply make_request_iff in H as (Hc & H & _). eauto.
    + intros (Hc & resp & H & Hst). exists resp. split; [|exact Hst].
      apply make_request_iff. split; [exact Hc|]. split; [exact H|].
      unfold error_status. lia.
  - rewrite Hf. split.
    + intros (resp & H & Hst). apply make_request_iff in H as (Hc & H & Hn). eauto.
    + intros (Hc & resp & H & Hn & Hst). exists resp. split; [|exact Hst].
      apply make_request_iff. auto.
  - intros e H. apply He in H as (e' & _ & ->). reflexivity.
Qed.

(** X3: commenting reports [True] exactly when the settings are present
    and the tracker answers the POST of the comment body to the comment
    endpoint of the issue with status 201, and [False] exactly when it
    answers with any other status outside 400..599.  Every failure
    surfaces as the tracker error. *)
Theorem add_jira_comment_outcome (key comment : string) :
  let req := comment_request urljoin env key comment in
  let res := add_jira_comment requests_request urljoin http_error_text env key comment in
  (res = Ok true <->
   configured env /\ exists resp, requests_request req = Ok resp /\ status_code resp = 201%Z) /\
  (res = Ok false <->
   configured env /\
   exists resp, requests_request req = Ok resp /\ ~ error_status resp /\
                status_code resp <> 201%Z) /\
  (forall e, res = Err e -> exn_kind_of e = JiraAPIError).
Proof.
  intros req res. unfold res, add_jira_comment.
  match goal with |- context [try_except (mbind _ ?r) _] =>
    destruct (created_outcome r "Failed to add comment: ") as (Ht & Hf & He) end.
  cbv zeta in Ht, Hf, He |- *. split; [|split].
  - rewrite Ht. split.
    + intros (resp & H & Hst). apply make_request_iff in H as (Hc & H & _). eauto.
    + intros (Hc & resp & H & Hst). exists resp. split; [|exact Hst].
      apply make_request_iff. split; [exact Hc|]. split; [exact H|].
      unfold error_status. lia.
  - rewrite Hf. split.
    + intros (resp & H & Hst). apply make_request_iff in H as (Hc & H & Hn). eauto.
    + intros (Hc & resp & H & Hn & Hst). exists resp. split; [|exact Hst].
      apply make_request_iff. auto.
  - intros e H. apply He in H as (e' & _ & ->). reflexivity.
Qed.

(** X4: the configuration check never raises, and answers [True] exactly
    when all four settings are present and the tracker answers the GET
    of the current user with status 200. *)
Theorem validate_jira_config_true_iff :
  let res := validate_jira_config requests_request urljoin http_error_text env in
  (exists b, res = Ok b) /\
  (res = Ok true <->
   fully_configured env /\
   exists resp, requests_request (myself_request urljoin env) = Ok resp /\
                status_code resp = 200%Z).
Proof.
  intros res. unfold res, validate_jira_config, fully_configured, configured.
  destruct (truthy (JIRA_INSTANCE_URL env)) eqn:Hu; simpl;
    [|split; [eauto|split; [discriminate|intros [[(?&?&?) _] _]; discriminate]]].
  destruct (truthy (PROJECT_KEY env)) eqn:Hp; simpl;
    [|split; [eauto|split; [discriminate|intros [[_ ?] _]; discriminate]]].
  destruct (truthy (JIRA_USERNAME env)) eqn:Hn; simpl;
    [|split; [eauto|split; [discriminate|intros [[(?&?&?) _] _]; discriminate]]].
  destruct (truthy (JIRA_API_TOKEN env)) eqn:Ht; simpl;
    [|split; [eauto|split; [discriminate|intros [[(?&?&?) _] _]; discriminate]]].
  assert (configured env) as Hc by (unfold configured; auto).
  destruct (make_request "GET" "/rest/api/2/myself" None 30) as [resp|e] eqn:E; simpl.
  - apply make_request_iff in E as (_ & E & Hst).
    destruct (Z.eqb_spec (status_code resp) 200) as [H|H]; simpl.
    + split; [eauto|]. split; [eauto 10|reflexivity].
    + split; [eauto|]. split; [discriminate|].
      intros (_ & resp' & E' & H'). unfold myself_request in E'.
      rewrite E in E'. injection E' as <-. contradiction.
  - split; [eauto|]. split; [discriminate|].
    intros (_ & resp & E' & H').
    assert (make_request "GET" "/rest/api/2/myself" None 30 = Ok resp) as E2.
    { apply make_request_iff. split; [exact Hc|]. split; [exact E'|].
      unfold error_status. lia. }
    congruence.
Qed.

(** X5: fetching one ticket never raises.  It returns a key and a text
    exactly when the settings are present, the tracker answers the GET
    of the issue with a status outside 400..599 and a JSON body, and
    that body parses to this key and text; in every other case it
    returns [None]. *)
Theorem get_ticket_data_outcome (key : string) :
  let res := get_ticket_data requests_request urljoin http_error_text py_repr env key in
  (res = Ok None \/ exists ticket, res = Ok (Some ticket)) /\
  (forall ticket,
     res = Ok (Some ticket) <->
     configured env /\
     exists resp data,
       requests_request (issue_request urljoin env key) = Ok resp /\
       ~ error_status resp /\
       body resp = Some data /\
       parse_jira_issue_fields py_repr data = Ok ticket).
Proof.
  intros res. unfold res, get_ticket_data.
  destruct (make_request "GET" ("/rest/agile/1.0/issue/" +:+ key) None 30)
    as [resp|e] eqn:E; simpl.
  - apply make_request_iff in E as (Hc & E & Hst). unfold response_json.
    destruct (body resp) as [data|] eqn:Eb; simpl.
    + destruct (parse_jira_issue_fields py_repr data) as [t|e] eqn:Ep; simpl.
      * split; [eauto|]. intros ticket. split.
        -- intros [= <-]. split; [exact Hc|]. exists resp, data. auto.
        -- intros (_ & resp' & data' & E' & _ & Eb' & Ep').
           unfold issue_request in E'. rewrite E in E'. injection E' as <-.
           rewrite Eb in Eb'. injection Eb' as <-. congruence.
      * split; [auto|]. intros ticket. split; [discriminate|].
        intros (_ & resp' & data' & E' & _ & Eb' & Ep').
        unfold issue_request in E'. rewrite E in E'. injection E' as <-.
        rewrite Eb in Eb'. injection Eb' as <-. congruence.
    + split; [auto|]. intros ticket. split; [discriminate|].
      intros (_ & resp' & data' & E' & _ & Eb' & Ep').
      unfold issue_request in E'. rewrite E in E'. injection E' as <-. congruence.
  - split; [auto|]. intros ticket. split; [discriminate|].
    intros (Hc & resp & data & E' & Hst & _).
    assert (make_request "GET" ("/rest/agile/1.0/issue/" +:+ key) None 30 = Ok resp) as E2
      by (apply make_request_iff; auto).
    congruence.
Qed.

End tracker_operations.

(** * Parsing issues *)

Section issue_parsing.
Variable py_repr : json -> string.

Local Abbreviation parse := (parse_jira_issue_fields py_repr).






Lemma parse_error_kind (data : json) (e : exn) :
  parse data = Err e -> exn_kind_of e = JiraAPIError.
Proof.
  unfold parse_jira_issue_fields, try_except.
  match goal with |- match ?b with _ => _ end = _ -> _ => destruct b end;
    [discriminate|]. now intros [= <-].
Qed.



End issue_parsing.

(** * The dictionary of the search *)

Section ticket_corpus.
Variable requests_request : request -> result response.
Variable urljoin : string -> string -> string.
Variable http_error_text : response -> string.
Variable py_repr : json -> string.
Variable env : settings.

Local Abbreviation parse := (parse_jira_issue_fields py_repr).
Local Abbreviation entry := (issue_entry py_repr).
Local Abbreviation search := (get_all_tickets requests_request urljoin http_error_text py_repr env).

Lemma collect_step (issue : json) (tickets : gmap string string) :
  try_except_kind JiraAPIError
    ('(key, description) ← parse issue; dict_setitem tickets key description)
    (fun e => Ok tickets) =
  match parse issue with
  | Ok (JStr k, text) => Ok (<[k := text]> tickets)
  | Ok (_, _) => Err (mkExn TypeError "unhashable type")
  | Err _ => Ok tickets
  end.
Proof.
  destruct (parse issue) as [[key text]|e] eqn:E; simpl.
  - destruct key; reflexivity.
  - apply parse_error_kind in E. rewrite E. now destruct (decide _).
Qed.

Lemma dict_of_cons (k text : string) (entries : list (string * string))
    (acc : gmap string string) :
  dict_of ((k, text) :: entries) ∪ acc = dict_of entries ∪ <[k := text]> acc.
Proof.
  unfold dict_of. rewrite reverse_cons, list_to_map_app. simpl.
  rewrite <- (assoc_L (∪)). f_equal.
  rewrite insert_empty. symmetry. apply insert_union_singleton_l.
Qed.

Lemma collect_tickets_hashable (issues : list json) (acc : gmap string string) :
  (forall issue, issue ∈ issues -> ~ unhashable_key py_repr issue) ->
  collect_tickets py_repr issues acc = Ok (dict_of (omap entry issues) ∪ acc).
Proof.
  revert acc. induction issues as [|issue rest IH]; intros acc H.
  - simpl. unfold dict_of. simpl. now rewrite (left_id_L ∅ (∪)).
  - cbn [collect_tickets]. rewrite collect_step.
    assert (forall i, i ∈ rest -> ~ unhashable_key py_repr i) as Hrest
      by (intros i Hi; apply H; now right).
    change (omap entry (issue :: rest)) with
      (match entry issue with
       | Some y => y :: omap entry rest
       | None => omap entry rest
       end).
    unfold issue_entry.
    destruct (parse issue) as [[key text]|e] eqn:E; simpl.
    + destruct key as [|k|items|members]; simpl.
      * exfalso. apply (H issue); [now left|]. exists JNull, text. split; [exact E|discriminate].
      * rewrite (IH _ Hrest). now rewrite dict_of_cons.
      * exfalso. apply (H issue); [now left|]. exists (JArr items), text.
        split; [exact E|discriminate].
      * exfalso. apply (H issue); [now left|]. exists (JObj members), text.
        split; [exact E|discriminate].
    + apply IH, Hrest.
Qed.

Lemma collect_tickets_unhashable (issues : list json) (acc : gmap string string) :
  (exists issue, issue ∈ issues /\ unhashable_key py_repr issue) ->
  exists e, collect_tickets py_repr issues acc = Err e.
Proof.
  revert acc. induction issues as [|issue rest IH]; intros acc (bad & Hin & Hbad).
  - now apply elem_of_nil in Hin.
  - cbn [collect_tickets]. rewrite collect_step.
    destruct (parse issue) as [[key text]|e] eqn:E; simpl.
    + destruct key as [|k|items|members]; simpl; eauto.
      apply IH. exists bad. split; [|exact Hbad].
      apply elem_of_cons in Hin as [->|Hin]; [|exact Hin].
      destruct Hbad as (key & text' & E' & Hk). rewrite E in E'. injection E' as <- <-.
      now destruct (Hk k).
    + apply IH. exists bad. split; [|exact Hbad].
      apply elem_of_cons in Hin as [->|Hin]; [|exact Hin].
      destruct Hbad as (key & text' & E' & _). congruence.
Qed.

Lemma unhashable_key_dec (issue : json) :
  {unhashable_key py_repr issue} + {~ unhashable_key py_repr issue}.
Proof.
  unfold unhashable_key.
  destruct (parse issue) as [[key text]|e] eqn:E.
  - destruct key as [|k|items|members].
    + left. exists JNull, text. split; [reflexivity|discriminate].
    + right. intros (key & text' & [= <- <-] & Hk). now destruct (Hk k).
    + left. exists (JArr items), text. split; [reflexivity|discriminate].
    + left. exists (JObj members), text. split; [reflexivity|discriminate].
  - right. intros (key & text & H & _). discriminate.
Qed.

Lemma collect_tickets_Ok (issues : list json) (acc tickets : gmap string string) :
  collect_tickets py_repr issues acc = Ok tickets ->
  forall issue, issue ∈ issues -> ~ unhashable_key py_repr issue.
Proof.
  intros H issue Hin Hbad.
  destruct (collect_tickets_unhashable issues acc) as (e & He); [eauto|]. congruence.
Qed.

Lemma search_unfold :
  search =
  try_except
    (response ← _make_request requests_request urljoin http_error_text env "GET"
                  (search_endpoint env) None 30;
     data ← response_json response;
     issues ← py_get data "issues" (JArr []);
     items ← py_iter issues;
     tickets ← collect_tickets py_repr items ∅;
     Ok (Some tickets))
    (fun e => Ok None).
Proof. reflexivity. Qed.

Lemma size_list_to_map_le (l : list (string * string)) :
  size (list_to_map l : gmap string string) <= length l.
Proof.
  induction l as [|[k v] l IH].
  - change (list_to_map [] : gmap string string) with (∅ : gmap string string).
    now rewrite map_size_empty.
  - change (list_to_map ((k, v) :: l) : gmap string string)
      with (<[k := v]> (list_to_map l : gmap string string)).
    rewrite map_size_insert. cbn [length]. destruct (_ !! k); simpl; lia.
Qed.

Lemma length_omap_le {A B} (f : A -> option B) (l : list A) :
  length (omap f l) <= length l.
Proof.
  induction l as [|x l IH]; [reflexivity|].
  change (omap f (x :: l)) with
    (match f x with Some y => y :: omap f l | None => omap f l end).
  destruct (f x); simpl; lia.
Qed.

Lemma dict_of_lookup_Some (entries : list (string * string)) (k text : string) :
  dict_of entries !! k = Some text -> (k, text) ∈ entries.
Proof.
  unfold dict_of. intros H. apply elem_of_list_to_map_2 in H. now rewrite elem_of_reverse in H.
Qed.

Lemma dict_of_is_Some (entries : list (string * string)) (k text : string) :
  (k, text) ∈ entries -> is_Some (dict_of entries !! k).
Proof.
  unfold dict_of. intros H.
  destruct (list_to_map (reverse entries) !! k) as [v|] eqn:E; [eauto|].
  apply not_elem_of_list_to_map in E. exfalso. apply E.
  apply list_elem_of_fmap. exists (k, text). split; [reflexivity|]. now apply elem_of_reverse.
Qed.

Lemma dict_of_last (before after : list (string * string)) (k text : string) :
  k ∉ after.*1 ->
  dict_of (before ++ (k, text) :: after) !! k = Some text.
Proof.
  intros H. unfold dict_of. rewrite reverse_app, reverse_cons, <- (assoc_L (++)).
  rewrite list_to_map_app, lookup_union_r.
  - simpl. apply lookup_insert_eq.
  - apply not_elem_of_list_to_map. rewrite fmap_reverse. now rewrite elem_of_reverse.
Qed.

Lemma issue_entry_Some (issue : json) (k text : string) :
  entry issue = Some (k, text) <-> parse issue = Ok (JStr k, text).
Proof.
  unfold issue_entry. destruct (parse issue) as [[key t]|e].
  - destruct key; split; congruence.
  - split; discriminate.
Qed.

Lemma search_Some_iff (tickets : gmap string string) :
  search = Ok (Some tickets) <->
  configured env /\
  exists resp members items,
    requests_request (search_request urljoin env) = Ok resp /\
    ~ error_status resp /\
    body resp = Some (JObj members) /\
    py_iter (issues_of members) = Ok items /\
    (forall issue, issue ∈ items -> ~ unhashable_key py_repr issue) /\
    tickets = dict_of (omap entry items).
Proof.
  rewrite search_unfold. split.
  - destruct (_make_request _ _ _ _ _ _ _ _) as [resp|e] eqn:E; simpl; [|discriminate].
    apply make_request_iff in E as (Hc & E & Hst).
    unfold response_json. destruct (body resp) as [data|] eqn:Eb; simpl; [|discriminate].
    destruct data as [|s|l|members]; simpl; try discriminate.
    fold (issues_of members).
    destruct (py_iter (issues_of members)) as [items|e] eqn:Ei; simpl; [|discriminate].
    destruct (collect_tickets py_repr items ∅) as [tk|e] eqn:Ec; simpl; [|discriminate].
    intros [= <-]. split; [exact Hc|]. exists resp, members, items.
    pose proof (collect_tickets_Ok _ _ _ Ec) as Hh.
    rewrite (collect_tickets_hashable _ _ Hh), (right_id_L ∅ (∪)) in Ec.
    injection Ec as <-. auto 10.
  - intros (Hc & resp & members & items & E & Hst & Eb & Ei & Hh & ->).
    assert (_make_request requests_request urljoin http_error_text env "GET"
              (search_endpoint env) None 30 = Ok resp) as ->
      by (apply make_request_iff; auto).
    simpl. unfold response_json. rewrite Eb. simpl. fold (issues_of members).
    rewrite Ei. simpl. rewrite (collect_tickets_hashable _ _ Hh), (right_id_L ∅ (∪)).
    reflexivity.
Qed.

(** X7: the search returns a dictionary exactly when the settings are
    present, the tracker answers the search request with a status
    outside 400..599 and a JSON object, the value under [issues] can be
    iterated, and no issue parses to a key that is a list or a
    dictionary.  The dictionary is then the one that assigning the
    entries of the issues that parse leaves, in the order of the
    response; issues that do not parse are left out. *)
Theorem search_dictionary (tickets : gmap string string) :
  search = Ok (Some tickets) <->
  configured env /\
  exists resp members items,
    requests_request (search_request urljoin env) = Ok resp /\
    ~ error_status resp /\
    body resp = Some (JObj members) /\
    py_iter (issues_of members) = Ok items /\
    (forall issue, issue ∈ items -> ~ unhashable_key py_repr issue) /\
    tickets = dict_of (omap entry items).
Proof.
  split.
  - intros H. now apply search_Some_iff.
  - intros H. now apply search_Some_iff.
Qed.

(** X8: one issue whose key is a list or a dictionary loses the whole
    search: the result is [None], whatever the other issues are. *)
Theorem search_unhashable_key (resp : response) (members : list (string * json))
    (items : list json) (bad : json) :
  requests_request (search_request urljoin env) = Ok resp ->
  body resp = Some (JObj members) ->
  py_iter (issues_of members) = Ok items ->
  bad ∈ items ->
  unhashable_key py_repr bad ->
  search = Ok None.
Proof.
  intros E Eb Ei Hin Hbad.
  destruct (search_never_raises requests_request urljoin http_error_text py_repr env)
    as ([tickets|] & H); [|exact H].
  exfalso. apply search_Some_iff in H
    as (_ & resp' & members' & items' & E' & _ & Eb' & Ei' & Hh & _).
  rewrite E in E'. injection E' as <-. rewrite Eb in Eb'. injection Eb' as <-.
  rewrite Ei in Ei'. injection Ei' as <-. exact (Hh bad Hin Hbad).
Qed.

(** X9: when the search returns a dictionary, every entry of it is the
    key and the text to which some issue of the response parses, every
    issue that parses to a string key has an entry, the entry holds the
    text of the last such issue, and there are no more entries than
    issues. *)
Theorem search_entries (tickets : gmap string string) :
  search = Ok (Some tickets) ->
  exists resp members items,
    requests_request (search_request urljoin env) = Ok resp /\
    body resp = Some (JObj members) /\
    py_iter (issues_of members) = Ok items /\
    (forall k text,
       tickets !! k = Some text ->
       exists issue, issue ∈ items /\ parse issue = Ok (JStr k, text)) /\
    (forall issue k text,
       issue ∈ items -> parse issue = Ok (JStr k, text) -> is_Some (tickets !! k)) /\
    (forall before issue after k text,
       items = before ++ issue :: after ->
       parse issue = Ok (JStr k, text) ->
       (forall later text', later ∈ after -> parse later <> Ok (JStr k, text')) ->
       tickets !! k = Some text) /\
    size tickets <= length items.
Proof.
  intros H. apply search_Some_iff in H
    as (_ & resp & members & items & E & _ & Eb & Ei & _ & ->).
  exists resp, members, items. split; [exact E|]. split; [exact Eb|]. split; [exact Ei|].
  split; [|split; [|split]].
  - intros k text H. apply dict_of_lookup_Some, list_elem_of_omap in H as (issue & Hin & He).
    exists issue. split; [exact Hin|]. now apply issue_entry_Some.
  - intros issue k text Hin Hp. apply (dict_of_is_Some _ k text), list_elem_of_omap.
    exists issue. split; [exact Hin|]. now apply issue_entry_Some.
  - intros before issue after k text -> Hp Hlater.
    rewrite omap_app.
    change (omap entry (issue :: after)) with
      (match entry issue with
       | Some y => y :: omap entry after
       | None => omap entry after
       end).
    apply issue_entry_Some in Hp. rewrite Hp. apply dict_of_last.
    intros Hk. apply list_elem_of_fmap in Hk as ([k' text'] & Hk & Hin). simpl in Hk. subst k'.
    apply list_elem_of_omap in Hin as (later & Hin & He).
    apply issue_entry_Some in He. exact (Hlater later text' Hin He).
  - unfold dict_of. etransitivity; [apply size_list_to_map_le|].
    rewrite length_reverse. apply length_omap_le.
Qed.

End ticket_corpus.

Lemma search_unhashable_key_witness :
  get_all_tickets (tracker_answers (mkResponse 200 (Some unhashable_search_body)))
    join_url error_text repr_stub sample_env = Ok None.
Proof.
  apply (search_unhashable_key (tracker_answers (mkResponse 200 (Some unhashable_search_body)))
           join_url error_text repr_stub sample_env
           (mkResponse 200 (Some unhashable_search_body))
           [("issues",
             JArr [JObj [("key", JStr "OPS-1"); ("fields", JObj [("summary", JStr "Login")])];
                   JObj [("key", JArr [JStr "OPS-2"])]])]
           [JObj [("key", JStr "OPS-1"); ("fields", JObj [("summary", JStr "Login")])];
            JObj [("key", JArr [JStr "OPS-2"])]]
           (JObj [("key", JArr [JStr "OPS-2"])])).
  - reflexivity.
  - reflexivity.
  - reflexivity.
  - right. left.
  - exists (JArr [JStr "OPS-2"]), "". split; [reflexivity|discriminate].
Defined.

Lemma search_entries_witness :
  get_all_tickets (tracker_answers (mkResponse 200 (Some duplicate_search_body)))
    join_url error_text repr_stub sample_env = Ok (Some {["OPS-1" := "Logout"]}) /\
  exists resp members items,
    tracker_answers (mkResponse 200 (Some duplicate_search_body))
      (search_request join_url sample_env) = Ok resp /\
    body resp = Some (JObj members) /\
    py_iter (issues_of members) = Ok items /\
    (forall k text,
       ({["OPS-1" := "Logout"]} : gmap string string) !! k = Some text ->
       exists issue, issue ∈ items /\
                     parse_jira_issue_fields repr_stub issue = Ok (JStr k, text)) /\
    (forall issue k text,
       issue ∈ items -> parse_jira_issue_fields repr_stub issue = Ok (JStr k, text) ->
       is_Some (({["OPS-1" := "Logout"]} : gmap string string) !! k)) /\
    (forall before issue after k text,
       items = before ++ issue :: after ->
       parse_jira_issue_fields repr_stub issue = Ok (JStr k, text) ->
       (forall later text', later ∈ after ->
                            parse_jira_issue_fields repr_stub later <> Ok (JStr k, text')) ->
       ({["OPS-1" := "Logout"]} : gmap string string) !! k = Some text) /\
    size ({["OPS-1" := "Logout"]} : gmap string string) <= length items.
Proof.
  split; [vm_compute; reflexivity|].
  apply (search_entries (tracker_answers (mkResponse 200 (Some duplicate_search_body)))
           join_url error_text repr_stub sample_env {["OPS-1" := "Logout"]}).
  vm_compute. reflexivity.
Defined.

(** * Which field the extractor returns *)

Section field_extraction.

Lemma string_length_append (s t : string) :
  String.length (s +:+ t) = String.length s + String.length t.
Proof. induction s as [|c s IH]; [reflexivity|]. rewrite append_cons. simpl. now rewrite IH. Qed.

(** Whether [m] is a prefix of a text is decided by the first
    [length m] characters of the text. *)
Lemma strip_prefix_None_app (m u v : string) :
  String.length m <= String.length u ->
  strip_prefix m u = None -> strip_prefix m (u +:+ v) = None.
Proof.
  revert u. induction m as [|a m IH]; intros u Hlen H; [discriminate|].
  destruct u as [|b u]; simpl in Hlen; [lia|].
  rewrite append_cons. simpl in *. destruct (Ascii.eqb a b); [|reflexivity].
  apply IH; [lia|exact H].
Qed.


(** A marker before which no marker begins is where [split_first] cuts. *)
Lemma split_first_intro (m pre rest : string) :
  marker_begins_inside m pre = false ->
  split_first m (pre +:+ m +:+ rest) = Some (pre, rest).
Proof.
  induction pre as [|c pre IH]; intros H.
  - rewrite append_nil_l, split_first_unfold. now rewrite strip_prefix_app.
  - simpl in H. destruct (strip_prefix m (String c pre +:+ m)) eqn:E; [discriminate|].
    assert (String.length m <= String.length (String c pre +:+ m)) as Hlen
      by (rewrite string_length_append; lia).
    rewrite split_first_unfold, <- append_assoc.
    rewrite (strip_prefix_None_app _ _ rest Hlen E).
    rewrite append_assoc, append_cons. now rewrite (IH H).
Qed.





End field_extraction.


(** * Outcomes of a triage run *)

Section triage_outcomes.
Variable W : world.

Lemma triage_target_none (sched : list nat) (self : JiraAgentManager) (tn : string)
    (h : heap) (all : option (gmap string string)) (corpus : gmap string string) :
  W GetAllTickets = Ok all -> nonempty_dict all = Some corpus ->
  W (GetTicketData tn) = Ok None ->
  _triage_tool W sched self tn h =
  (Ok ("Could not retrieve data for ticket: " +:+ tn), h, [GetAllTickets; GetTicketData tn]).
Proof.
  intros HW Hall Ht. unfold _triage_tool, M_try, M_bind.
  rewrite run_perform, HW, Hall, run_perform, Ht. reflexivity.
Qed.

Lemma triage_target_raises (sched : list nat) (self : JiraAgentManager) (tn : string)
    (h : heap) (all : option (gmap string string)) (corpus : gmap string string) (e : exn) :
  W GetAllTickets = Ok all -> nonempty_dict all = Some corpus ->
  W (GetTicketData tn) = Err e ->
  _triage_tool W sched self tn h =
  (Ok ("Error during triage: " +:+ str_exn e), h, [GetAllTickets; GetTicketData tn]).
Proof.
  intros HW Hall Ht. unfold _triage_tool, M_try, M_bind.
  rewrite run_perform, HW, Hall, run_perform, Ht. reflexivity.
Qed.

Lemma nonempty_dict_inv (all : option (gmap string string)) (corpus : gmap string string) :
  nonempty_dict all = Some corpus -> all = Some corpus /\ corpus <> ∅.
Proof.
  destruct all as [d|]; simpl; [|discriminate].
  destruct (decide (d = ∅)); [discriminate|]. now intros [= <-].
Qed.

(** X13: a triage run never raises: it always returns a message.  The
    message is the completion message exactly when the search returned a
    dictionary that is not empty and the fetch of the ticket returned a
    ticket; nothing that the models, the link calls or the comment call
    do, and no schedule of the workers, changes that. *)
Theorem triage_status (sched : list nat) (self : JiraAgentManager) (tn : string) (h : heap) :
  (exists msg, outcome (_triage_tool W sched self tn h) = Ok msg) /\
  (outcome (_triage_tool W sched self tn h) = Ok "Task complete" <->
   exists corpus ticket,
     W GetAllTickets = Ok (Some corpus) /\ corpus <> ∅ /\
     W (GetTicketData tn) = Ok (Some ticket)).
Proof.
  destruct (W GetAllTickets) as [all|e] eqn:Hall.
  2: { rewrite (triage_search_raises W sched self tn h e Hall). unfold outcome. simpl.
       split; [eauto|]. split; [intros [= H]; discriminate H|].
       intros (? & ? & ? & _). discriminate. }
  destruct (nonempty_dict all) as [corpus|] eqn:Hc.
  2: { rewrite (triage_no_corpus W sched self tn h all Hall Hc). unfold outcome. simpl.
       split; [eauto|]. split; [discriminate|].
       intros (corpus & ticket & [= ->] & Hne & _). simpl in Hc.
       now destruct (decide (corpus = ∅)). }
  destruct (W (GetTicketData tn)) as [[[pk pd]|]|e] eqn:Ht.
  - destruct (triage_linked W sched self tn h all corpus pk pd Hall Hc Ht)
      as (tr & h1 & _ & _ & _ & Ho & _).
    rewrite Ho. split; [eauto|]. split; [|reflexivity]. intros _.
    apply nonempty_dict_inv in Hc as [-> Hne]. eauto.
  - rewrite (triage_target_none sched self tn h all corpus Hall Hc Ht). unfold outcome. simpl.
    split; [eauto|]. split; [intros [= H]; discriminate H|].
    intros (? & ? & _ & _ & ?). discriminate.
  - rewrite (triage_target_raises sched self tn h all corpus e Hall Hc Ht).
    unfold outcome. simpl.
    split; [eauto|]. split; [intros [= H]; discriminate H|].
    intros (? & ? & _ & _ & ?). discriminate.
Qed.

(** X14: when the search returned tickets but the ticket to triage
    cannot be fetched, the run returns the message that names the
    ticket, leaves the task objects as they were, and has made the two
    fetches only: no model is invoked, nothing is linked, no comment is
    posted. *)
Theorem target_missing_aborts (sched : list nat) (self : JiraAgentManager) (tn : string)
    (h : heap) (corpus : gmap string string) :
  W GetAllTickets = Ok (Some corpus) -> corpus <> ∅ ->
  W (GetTicketData tn) = Ok None ->
  _triage_tool W sched self tn h =
  (Ok ("Could not retrieve data for ticket: " +:+ tn), h, [GetAllTickets; GetTicketData tn]).
Proof.
  intros Hall Hne Ht.
  apply (triage_target_none sched self tn h (Some corpus) corpus Hall); [|exact Ht].
  now apply nonempty_dict_Some.
Qed.

End triage_outcomes.

Lemma target_missing_aborts_witness :
  _triage_tool missing_target_world sample_schedule sample_manager "OPS-9" sample_heap =
  (Ok "Could not retrieve data for ticket: OPS-9", sample_heap,
   [GetAllTickets; GetTicketData "OPS-9"]).
Proof.
  apply (target_missing_aborts missing_target_world sample_schedule sample_manager "OPS-9"
           sample_heap sample_corpus).
  - reflexivity.
  - intros H. apply (f_equal (fun m : gmap string string => m !! "OPS-1")) in H.
    vm_compute in H. discriminate H.
  - reflexivity.
Defined.

(** * What a triage run depends on *)

Section triage_dependence.
Variables W1 W2 : world.
Hypothesis Hmodel : forall r c input, W1 (Invoke r c input) = W2 (Invoke r c input).





End triage_dependence.


Section triage_writes.
Variable W : world.

Lemma elem_of_concat {X} (x : X) (ls : list (list X)) :
  x ∈ concat ls -> exists l, x ∈ l /\ l ∈ ls.
Proof.
  induction ls as [|l ls IH]; simpl; [intros H; now apply elem_of_nil in H|].
  rewrite elem_of_app. intros [H|H].
  - exists l. split; [exact H|left].
  - destruct (IH H) as (l' & ? & ?). exists l'. split; [assumption|now right].
Qed.

Lemma elem_of_helper_calls (self : JiraAgentManager) (h : heap) (k d pk pd : string)
    (c : call) :
  c ∈ helper_calls W self h (k, d, pk, pd) ->
  (exists r ch input, c = Invoke r ch input) \/ (c = LinkJiraIssue pk k /\ k <> pk).
Proof.
  unfold helper_calls. destruct (String.eqb k pk) eqn:E.
  - intros H. now apply elem_of_nil in H.
  - apply String.eqb_neq in E. rewrite elem_of_app. intros [H|H].
    + left. unfold check_calls in H. destruct (linking_model self) as [r|].
      * apply list_elem_of_singleton in H. eauto.
      * now apply elem_of_nil in H.
    + right. destruct (check_verdict W self h pd d).
      * apply list_elem_of_singleton in H. auto.
      * now apply elem_of_nil in H.
Qed.

Lemma elem_of_metadata_calls (self : JiraAgentManager) (h : heap) (pk pd : string)
    (c : call) :
  c ∈ metadata_calls W self h pk pd ->
  (exists r ch input, c = Invoke r ch input) \/ (exists comment, c = AddJiraComment pk comment).
Proof.
  unfold metadata_calls. destruct (product_model self) as [r|].
  - rewrite elem_of_cons. intros [->|H]; [eauto|].
    destruct (nonempty _) as [out|].
    + apply list_elem_of_singleton in H. eauto.
    + now apply elem_of_nil in H.
  - intros H. now apply elem_of_nil in H.
Qed.

Lemma metadata_calls_comments (self : JiraAgentManager) (h : heap) (pk pd : string) :
  count_calls is_comment (metadata_calls W self h pk pd) <= 1.
Proof.
  unfold metadata_calls. destruct (product_model self) as [r|]; simpl; [|lia].
  destruct (nonempty _); simpl; lia.
Qed.

Lemma task_calls_comments (self : JiraAgentManager) (h : heap)
    (args : string * string * string * string) :
  count_calls is_comment (task_calls W self h args) = 0.
Proof.
  destruct args as [[[k d] pk] pd]. rewrite task_calls_eq.
  apply count_calls_none, Forall_forall. intros c Hin.
  now apply elem_of_helper_calls in Hin as [(r & ch & input & ->) | [-> _]].
Qed.

(** X16: a triage run writes only to tickets that the tracker returned:
    every comment goes to the ticket that the fetch returned, every link
    goes from that ticket to a different key of the search result, the
    only ticket fetched is the one asked for, and at most one comment is
    posted. *)
Theorem triage_writes_returned_tickets (sched : list nat) (self : JiraAgentManager)
    (tn : string) (h : heap) :
  Forall (call_on_returned_tickets W tn) (calls (_triage_tool W sched self tn h)) /\
  count_calls is_comment (calls (_triage_tool W sched self tn h)) <= 1.
Proof.
  destruct (triage_shape W sched self tn h)
    as [[_ [-> | ->]] | (all & corpus & pk & pd & Hall & Hc & Ht)].
  - split; [|simpl; lia]. repeat constructor.
  - split; [|simpl; lia]. repeat constructor.
  - destruct (triage_linked W sched self tn h all corpus pk pd Hall Hc Ht)
      as (tr & h1 & Hp & _ & _ & _ & ->).
    apply nonempty_dict_inv in Hc as [-> Hne].
    split.
    + apply Forall_app. split; [repeat constructor|].
      apply Forall_app. split.
      * rewrite Hp. apply Forall_forall. intros c Hin.
        apply elem_of_concat in Hin as (l & Hc & Hl).
        apply list_elem_of_fmap in Hl as (args & -> & Hargs).
        unfold task_args in Hargs.
        apply list_elem_of_fmap in Hargs as ([k d] & -> & Hkd).
        apply elem_of_map_to_list in Hkd. rewrite task_calls_eq in Hc.
        apply elem_of_helper_calls in Hc as [(r & ch & input & ->) | [-> Hk]];
          [exact I|].
        simpl. exists pd, corpus. eauto.
      * apply Forall_forall. intros c Hin.
        apply elem_of_metadata_calls in Hin as [(r & ch & input & ->) | (comment & ->)];
          [exact I|].
        simpl. eauto.
    + rewrite !count_calls_app, (count_calls_perm _ _ _ Hp), count_calls_concat.
      rewrite sum_list_with_zero by (intros args; apply task_calls_comments).
      pose proof (metadata_calls_comments self h pk pd). simpl. lia.
Qed.

End triage_writes.

(** * Runs of a task *)

Section task_runs.
Variable W : world.

(** X17: a run of a task never raises and makes exactly one call: it
    invokes the chain of the task with the input, and returns what the
    chain returns, or [None] when the chain raises.  The chain is the one
    stored in the task or, when none is stored, the one built from the
    prompt, the examples and the model of the task; the next run of the
    task, on any input, invokes the same chain. *)
Theorem run_llm_invokes_once (r : task_ref) (input : string) (h : heap) :
  let ch := effective_chain (deref h r) in
  let m := run W (run_llm r input) h in
  calls m = [Invoke r ch input] /\
  (forall v, W (Invoke r ch input) = Ok v -> outcome m = Ok v) /\
  (forall e, W (Invoke r ch input) = Err e -> outcome m = Ok None) /\
  (forall input', calls (run W (run_llm r input') (final_heap m)) = [Invoke r ch input']).
Proof.
  intros ch m.
  destruct (wp_run W _ _ _ (run_llm_wp W r input h)) as [(_ & Ho & Hc) Hle].
  fold m in Ho, Hc, Hle. fold ch in Hc.
  split; [exact Hc|]. split; [|split].
  - intros v Hv. rewrite Ho. unfold llm_output. fold ch. now rewrite Hv.
  - intros e He. rewrite Ho. unfold llm_output. fold ch. now rewrite He.
  - intros input'.
    destruct (wp_run W _ _ _ (run_llm_wp W r input' (final_heap m))) as [(_ & _ & Hc') _].
    rewrite Hc'. unfold ch. now rewrite (heap_le_effective _ _ r Hle).
Qed.

End task_runs.

(** * Fields of a well-formed output *)

Section well_formed_output.

Lemma clash_strip_prefix (m s x : string) :
  clash m s = true -> strip_prefix m (s +:+ x) = None.
Proof.
  revert s. induction m as [|a m IH]; intros s H; [discriminate|].
  destruct s as [|b s]; [discriminate|]. rewrite append_cons. simpl in *.
  destruct (Ascii.eqb a b); [now apply IH|reflexivity].
Qed.

(** A prefix in which the marker cannot begin is passed over by the
    search. *)
Lemma split_first_skip (m p text : string) :
  clashes_inside m p = true ->
  split_first m (p +:+ text) =
  match split_first m text with
  | Some (pre, post) => Some (p +:+ pre, post)
  | None => None
  end.
Proof.
  induction p as [|c p IH]; intros H.
  - rewrite append_nil_l. now destruct (split_first m text) as [[? ?]|].
  - simpl in H. apply andb_true_iff in H as [Hc Hp].
    rewrite split_first_unfold, (clash_strip_prefix _ _ _ Hc), append_cons, (IH Hp).
    now destruct (split_first m text) as [[? ?]|].
Qed.

Lemma extract_skip (p text tag : string) :
  clashes_inside (marker tag) p = true ->
  extract_tag_helper (p +:+ text) tag = extract_tag_helper text tag.
Proof.
  intros H. unfold extract_tag_helper. rewrite (split_first_skip _ _ _ H).
  now destruct (split_first (marker tag) text) as [[? ?]|].
Qed.

Lemma no_lt_clashes_inside (tag s : string) :
  no_lt s = true -> clashes_inside (marker tag) s = true.
Proof.
  induction s as [|c s IH]; [reflexivity|]. intros H. cbn [no_lt] in H.
  apply andb_true_iff in H as [Hc Hs]. cbn [clashes_inside].
  rewrite (IH Hs), andb_true_r. unfold marker. rewrite append_cons. cbn [clash].
  rewrite Ascii.eqb_sym. now destruct (Ascii.eqb c "<").
Qed.

Lemma clashes_inside_no_marker (m a : string) :
  clashes_inside m a = true -> marker_begins_inside m a = false.
Proof.
  induction a as [|c a IH]; [reflexivity|]. intros H. simpl in H.
  apply andb_true_iff in H as [Hc Ha].
  change (marker_begins_inside m (String c a)) with
    (match strip_prefix m (String c a +:+ m) with
     | Some _ => true
     | None => marker_begins_inside m a
     end).
  rewrite (clash_strip_prefix _ _ _ Hc). now apply IH.
Qed.

(** A field at the head of a text, in which the marker cannot begin, is
    the field extracted. *)
Lemma extract_head_field (a tag rest : string) :
  no_lt a = true ->
  extract_tag_helper (wrap a tag +:+ rest) tag = Some a.
Proof.
  intros H. unfold extract_tag_helper, wrap. rewrite !append_assoc.
  rewrite (split_first_unfold _ (marker tag +:+ _)), strip_prefix_app.
  rewrite (split_first_intro (marker tag) a rest); [reflexivity|].
  now apply clashes_inside_no_marker, no_lt_clashes_inside.
Qed.

Lemma skip_wrap (a tag' tag text : string) :
  clashes_inside (marker tag) (marker tag') = true ->
  no_lt a = true ->
  extract_tag_helper (wrap a tag' +:+ text) tag = extract_tag_helper text tag.
Proof.
  intros Hm Ha. unfold wrap. rewrite !append_assoc.
  rewrite (extract_skip _ _ _ Hm), (extract_skip _ _ _ (no_lt_clashes_inside tag a Ha)).
  now rewrite (extract_skip _ _ _ Hm).
Qed.

Lemma skip_plain (s tag text : string) :
  no_lt s = true -> extract_tag_helper (s +:+ text) tag = extract_tag_helper text tag.
Proof. intros H. now apply extract_skip, no_lt_clashes_inside. Qed.

Lemma no_lt_app (s t : string) : no_lt (s +:+ t) = no_lt s && no_lt t.
Proof.
  induction s as [|c s IH]; [reflexivity|]. rewrite append_cons. cbn [no_lt].
  now rewrite IH, andb_assoc.
Qed.

Lemma metadata_output_fields (s0 U s1 A s2 P s3 T s4 : string) :
  no_lt (s0 +:+ U +:+ s1 +:+ A +:+ s2 +:+ P +:+ s3 +:+ T) = true ->
  let out := metadata_output s0 U s1 A s2 P s3 T s4 in
  tag_or_empty out "user_stories" = U /\
  tag_or_empty out "acceptance_criteria" = A /\
  tag_or_empty out "priority" = P /\
  tag_or_empty out "thought" = T.
Proof.
  rewrite !no_lt_app, !andb_true_iff.
  intros (H0 & HU & H1 & HA & H2 & HP & H3 & HT) out.
  unfold out, metadata_output, tag_or_empty.
  repeat split.
  - rewrite (skip_plain _ _ _ H0).
    now rewrite (extract_head_field _ _ _ HU).
  - rewrite (skip_plain _ _ _ H0).
    rewrite (skip_wrap U "user_stories" "acceptance_criteria" _ eq_refl HU).
    rewrite (skip_plain _ _ _ H1).
    now rewrite (extract_head_field _ _ _ HA).
  - rewrite (skip_plain _ _ _ H0).
    rewrite (skip_wrap U "user_stories" "priority" _ eq_refl HU).
    rewrite (skip_plain _ _ _ H1).
    rewrite (skip_wrap A "acceptance_criteria" "priority" _ eq_refl HA).
    rewrite (skip_plain _ _ _ H2).
    now rewrite (extract_head_field _ _ _ HP).
  - rewrite (skip_plain _ _ _ H0).
    rewrite (skip_wrap U "user_stories" "thought" _ eq_refl HU).
    rewrite (skip_plain _ _ _ H1).
    rewrite (skip_wrap A "acceptance_criteria" "thought" _ eq_refl HA).
    rewrite (skip_plain _ _ _ H2).
    rewrite (skip_wrap P "priority" "thought" _ eq_refl HP).
    rewrite (skip_plain _ _ _ H3).
    now rewrite (extract_head_field _ _ _ HT).
Qed.

Lemma metadata_output_nonempty (s0 U s1 A s2 P s3 T s4 : string) :
  nonempty (Some (metadata_output s0 U s1 A s2 P s3 T s4)) =
  Some (metadata_output s0 U s1 A s2 P s3 T s4).
Proof.
  unfold metadata_output, wrap, marker. destruct s0 as [|c s0].
  - now rewrite append_nil_l, !append_cons.
  - now rewrite append_cons.
Qed.

End well_formed_output.

(** X18: when the output of the metadata model holds the four fields
    in the order user_stories, acceptance_criteria, priority, thought,
    each between its pair of markers, and neither the fields nor the
    texts before them contain an opening angle bracket, then metadata
    synthesis posts one comment on the ticket whose four lines carry
    exactly the four fields. *)
Theorem metadata_comment_of_fields (W : world) (self : JiraAgentManager) (r : task_ref)
    (pk pd : string) (h : heap) (s0 U s1 A s2 P s3 T s4 : string) :
  product_model self = Some r ->
  no_lt (s0 +:+ U +:+ s1 +:+ A +:+ s2 +:+ P +:+ s3 +:+ T) = true ->
  W (Invoke r (effective_chain (deref h r)) (description_prompt pd)) =
    Ok (Some (metadata_output s0 U s1 A s2 P s3 T s4)) ->
  calls (run W (_generate_ticket_metadata self pk pd) h) =
  [Invoke r (effective_chain (deref h r)) (description_prompt pd);
   AddJiraComment pk (four_line_comment U A P T)].
Proof.
  intros Hr Hplain Hout.
  destruct (metadata_sound W self pk pd h) as (_ & -> & _).
  rewrite (metadata_calls_comment W self h pk pd r (metadata_output s0 U s1 A s2 P s3 T s4) Hr).
  - destruct (metadata_output_fields s0 U s1 A s2 P s3 T s4 Hplain) as (-> & -> & -> & ->).
    reflexivity.
  - unfold llm_output. rewrite Hout. apply metadata_output_nonempty.
Qed.

Lemma metadata_comment_of_fields_witness :
  calls (run thorough_world (_generate_ticket_metadata sample_manager "OPS-1" "login fails")
           sample_heap) =
  [Invoke product_ref (effective_chain (deref sample_heap product_ref))
     (description_prompt "login fails");
   AddJiraComment "OPS-1"
     (four_line_comment "As a user I log in" "Login works" "High" "Blocks the release")].
Proof.
  apply (metadata_comment_of_fields thorough_world sample_manager product_ref "OPS-1"
           "login fails" sample_heap "" "As a user I log in" "
" "Login works" "
" "High" "
" "Blocks the release" "").
  - reflexivity.
  - reflexivity.
  - reflexivity.
Defined.

(** * Triage over the tracker operations *)

Section triage_over_http.
Variable requests_request : request -> result response.
Variable urljoin : string -> string -> string.
Variable http_error_text : response -> string.
Variable py_repr : json -> string.
Variable env : settings.
Variable W : world.
Hypothesis Hbacked : backed_by W requests_request urljoin http_error_text py_repr env.

Local Abbreviation search := (get_all_tickets requests_request urljoin http_error_text py_repr env).
Local Abbreviation fetch := (get_ticket_data requests_request urljoin http_error_text py_repr env).

Lemma fetch_never_raises (key : string) : exists r, fetch key = Ok r.
Proof.
  unfold get_ticket_data, try_except.
  match goal with |- exists r, match ?b with _ => _ end = _ => destruct b end; eauto.
Qed.

Lemma search_unavailable :
  ~ configured env \/
  (exists e, requests_request (search_request urljoin env) = Err e) \/
  (exists resp, requests_request (search_request urljoin env) = Ok resp /\ error_status resp) ->
  search = Ok None.
Proof.
  intros H.
  destruct (search_never_raises requests_request urljoin http_error_text py_repr env)
    as ([tickets|] & Hs); [|exact Hs].
  exfalso. apply search_Some_iff in Hs as (Hc & resp & _ & _ & E & Hst & _).
  destruct H as [H | [(e & H) | (resp' & H & Hst')]].
  - contradiction.
  - congruence.
  - rewrite E in H. injection H as <-. contradiction.
Qed.

(** X19: over the tracker operations, a tracker that cannot be
    searched (a setting is missing, the transport fails, or the search is
    answered with an error status) makes triage return the message that
    no tickets were found, after the search call alone: the failure is
    not reported as an error. *)
Theorem triage_tracker_unavailable (sched : list nat) (self : JiraAgentManager)
    (tn : string) (h : heap) :
  ~ configured env \/
  (exists e, requests_request (search_request urljoin env) = Err e) \/
  (exists resp, requests_request (search_request urljoin env) = Ok resp /\ error_status resp) ->
  _triage_tool W sched self tn h = (Ok "No tickets found for triage", h, [GetAllTickets]).
Proof.
  intros H. destruct Hbacked as (Hsearch & _).
  apply (triage_no_corpus W sched self tn h None); [|reflexivity].
  rewrite Hsearch. now apply search_unavailable.
Qed.

(** X20: over the tracker operations, triage never returns its error
    message: since neither the search nor the fetch raises, and the link
    phase and metadata synthesis swallow their exceptions, the result is
    one of the three other messages. *)
Theorem triage_over_tracker_messages (sched : list nat) (self : JiraAgentManager)
    (tn : string) (h : heap) :
  (forall key text, fetch tn = Ok (Some (key, text)) -> exists k, key = JStr k) ->
  outcome (_triage_tool W sched self tn h) = Ok "No tickets found for triage" \/
  outcome (_triage_tool W sched self tn h) =
    Ok ("Could not retrieve data for ticket: " +:+ tn) \/
  outcome (_triage_tool W sched self tn h) = Ok "Task complete".
Proof.
  intros Hkey. destruct Hbacked as (Hsearch & Hfetch & _).
  destruct (search_never_raises requests_request urljoin http_error_text py_repr env)
    as (all & Hs).
  rewrite Hs in Hsearch.
  destruct (nonempty_dict all) as [corpus|] eqn:Hc.
  2: { left. now rewrite (triage_no_corpus W sched self tn h all Hsearch Hc). }
  right. specialize (Hfetch tn). destruct (fetch_never_raises tn) as ([[key text]|] & Hf).
  - destruct (Hkey key text Hf) as (k & ->). rewrite Hf in Hfetch. simpl in Hfetch.
    right.
    now destruct (triage_linked W sched self tn h all corpus k text Hsearch Hc Hfetch)
      as (tr & h1 & _ & _ & _ & Ho & _).
  - rewrite Hf in Hfetch. simpl in Hfetch. left.
    now rewrite (triage_target_none W sched self tn h all corpus Hsearch Hc Hfetch).
Qed.

End triage_over_http.

Lemma tracker_world_backed (requests_request : request -> result response)
    (urljoin : string -> string -> string) (http_error_text : response -> string)
    (py_repr : json -> string) (env : settings)
    (model : task_ref -> chain -> string -> result (option string)) :
  backed_by (tracker_world requests_request urljoin http_error_text py_repr env model)
    requests_request urljoin http_error_text py_repr env.
Proof.
  split; [reflexivity|]. split; [|split; reflexivity].
  intros key. simpl.
  destruct (get_ticket_data _ _ _ _ _ key) as [[[[] text]|]|e]; simpl; auto.
Qed.

Lemma triage_tracker_unavailable_witness :
  _triage_tool (tracker_world tracker_down join_url error_text repr_stub sample_env sample_model)
    sample_schedule sample_manager "OPS-1" sample_heap =
  (Ok "No tickets found for triage", sample_heap, [GetAllTickets]).
Proof.
  apply (triage_tracker_unavailable tracker_down join_url error_text repr_stub sample_env).
  - split; [reflexivity|]. split; [|split; reflexivity]. intros key. reflexivity.
  - right. left. eexists. reflexivity.
Defined.

Lemma triage_over_tracker_messages_witness :
  outcome (_triage_tool
             (tracker_world sample_tracker join_url error_text repr_stub sample_env sample_model)
             sample_schedule sample_manager "OPS-1" sample_heap) =
    Ok "No tickets found for triage" \/
  outcome (_triage_tool
             (tracker_world sample_tracker join_url error_text repr_stub sample_env sample_model)
             sample_schedule sample_manager "OPS-1" sample_heap) =
    Ok ("Could not retrieve data for ticket: " +:+ "OPS-1") \/
  outcome (_triage_tool
             (tracker_world sample_tracker join_url error_text repr_stub sample_env sample_model)
             sample_schedule sample_manager "OPS-1" sample_heap) = Ok "Task complete".
Proof.
  apply (triage_over_tracker_messages sample_tracker join_url error_text repr_stub sample_env).
  - split; [reflexivity|]. split; [|split; reflexivity]. intros key. reflexivity.
  - intros key text H. vm_compute in H. injection H as <- _. eexists. reflexivity.
Defined.

(** Over the sample transport the run completes: OPS-2 is checked
    against the target and the comment is posted. *)
Example triage_over_sample_tracker :
  _triage_tool
    (tracker_world sample_tracker join_url error_text repr_stub sample_env sample_model)
    [] sample_manager "OPS-1" sample_heap =
  (Ok "Task complete",
   mkHeap (with_chain (linking_obj sample_heap) (built_chain (linking_obj sample_heap)))
          (with_chain (product_obj sample_heap) (built_chain (product_obj sample_heap))),
   [GetAllTickets; GetTicketData "OPS-1";
    Invoke linking_ref (built_chain (linking_obj sample_heap))
      (relatedness_prompt "Login" "Dark mode  for the editor");
    Invoke product_ref (built_chain (product_obj sample_heap)) (description_prompt "Login");
    AddJiraComment "OPS-1" (four_line_comment "" "" "High" "")]).
Proof. vm_compute. reflexivity. Qed.

(** * The REST layer *)

Section request_validation.
Import serializers.



Lemma eqb_empty (s : string) : String.eqb s "" = false <-> s <> "".
Proof. apply String.eqb_neq. Qed.









End request_validation.

Section agent_view.
Import serializers views.
Variable request_field : json -> validation string.
Variable agent : option (string -> result (option (list (string * json)))).
Variable response_is_valid : json -> bool.
Variable save : string -> json -> result Z.

Local Abbreviation valid := (is_valid request_field).
Local Abbreviation view := (post request_field agent response_is_valid save).



(** X24: the view answers 200, 400 or 500.  It answers 200 exactly when
    the record was saved: the posted data validated, the agent returned a
    dictionary with an output, the output validated as a response, and
    saving the pair succeeded; the body then carries that output and the
    id of the record.  Whenever the answer is not 200, no record was
    saved: either the database was not written, or the write raised. *)
Theorem post_success_iff_saved (posted : json) :
  (status (view posted).1 = 200%Z \/ status (view posted).1 = 400%Z \/
   status (view posted).1 = 500%Z) /\
  (status (view posted).1 = 200%Z <->
   exists u invoke members output request_id,
     valid posted = Valid u /\
     agent = Some invoke /\ invoke u = Ok (Some members) /\
     members_get "output" members = Some output /\
     response_is_valid output = true /\
     save u output = Ok request_id /\
     view posted = (mkHttpResponse (Success output request_id) 200,
                    [AgentInvoke u; Save u output])) /\
  (status (view posted).1 <> 200%Z ->
   forall u output, Save u output ∈ (view posted).2 -> exists e, save u output = Err e).
Proof.
  unfold post. destruct (valid posted) as [u|details] eqn:Hv.
  2: { simpl. split; [auto|]. split.
       - split; [discriminate|]. intros (? & ? & ? & ? & ? & ? & _). discriminate.
       - intros _ ? ? H. now apply elem_of_nil in H. }
  destruct agent as [invoke|] eqn:Ha.
  2: { simpl. split; [auto|]. split.
       - split; [discriminate|]. intros (? & ? & ? & ? & ? & _ & ? & _). discriminate.
       - intros _ ? ? H. now apply elem_of_nil in H. }
  assert (forall (P : Prop) u' (inv' : string -> result (option (list (string * json)))),
            Valid u = Valid u' -> Some invoke = Some inv' -> (u' = u -> inv' = invoke -> P) -> P)
    as Hinv by (intros P u' inv' [= <-] [= <-] H; auto).
  assert (forall x : event, x ∈ [AgentInvoke u] -> forall u' o, x <> Save u' o) as Honly.
  { intros x Hx u' o ->. apply list_elem_of_singleton in Hx. discriminate. }
  destruct (invoke u) as [[members|]|e] eqn:Hi.
  - destruct members as [|m members'] eqn:Hm.
    + simpl. split; [auto|]. split.
      * split; [discriminate|].
        intros (u' & inv' & mem' & o & id & H1 & H2 & H3 & H4 & _).
        apply (Hinv _ _ _ H1 H2). intros -> ->. rewrite Hi in H3. injection H3 as <-.
        discriminate.
      * intros _ u' o H. exfalso. exact (Honly _ H u' o eq_refl).
    + rewrite <- Hm in *. clear Hm.
      destruct (members_get "output" members) as [output|] eqn:Ho.
      * destruct (response_is_valid output) eqn:Hr; simpl.
        -- destruct (save u output) as [id|e] eqn:Hs; simpl.
           ++ split; [auto|]. split; [|intros H; now destruct H].
              split; [|reflexivity]. intros _.
              exists u, invoke, members, output, id. auto 10.
           ++ split; [auto|]. split.
              ** split; [discriminate|].
                 intros (u' & inv' & mem' & o & id & H1 & H2 & H3 & H4 & _ & H6 & _).
                 apply (Hinv _ _ _ H1 H2). intros -> ->. rewrite Hi in H3.
                 injection H3 as <-. rewrite Ho in H4. injection H4 as <-. congruence.
              ** intros _ u' o H. apply elem_of_cons in H as [H|H]; [discriminate|].
                 apply list_elem_of_singleton in H. injection H as -> ->. eauto.
        -- split; [auto|]. split.
           ++ split; [discriminate|].
              intros (u' & inv' & mem' & o & id & H1 & H2 & H3 & H4 & H5 & _).
              apply (Hinv _ _ _ H1 H2). intros -> ->. rewrite Hi in H3.
              injection H3 as <-. rewrite Ho in H4. injection H4 as <-. congruence.
           ++ intros _ u' o H. exfalso. exact (Honly _ H u' o eq_refl).
      * simpl. split; [auto|]. split.
        -- split; [discriminate|].
           intros (u' & inv' & mem' & o & id & H1 & H2 & H3 & H4 & _).
           apply (Hinv _ _ _ H1 H2). intros -> ->. rewrite Hi in H3.
           injection H3 as <-. congruence.
        -- intros _ u' o H. exfalso. exact (Honly _ H u' o eq_refl).
  - simpl. split; [auto|]. split.
    + split; [discriminate|].
      intros (u' & inv' & mem' & o & id & H1 & H2 & H3 & _).
      apply (Hinv _ _ _ H1 H2). intros -> ->. congruence.
    + intros _ u' o H. exfalso. exact (Honly _ H u' o eq_refl).
  - simpl. split; [auto|]. split.
    + split; [discriminate|].
      intros (u' & inv' & mem' & o & id & H1 & H2 & H3 & _).
      apply (Hinv _ _ _ H1 H2). intros -> ->. congruence.
    + intros _ u' o H. exfalso. exact (Honly _ H u' o eq_refl).
Qed.

End agent_view.

(** A request with white space around it reaches the agent stripped,
    and the stored record holds the stripped request. *)
Example post_sample :
  views.post plain_request_field echo_agent nonblank_response first_id
    (JObj [("request", JStr "  Triage the issue OPS-19 ")]) =
  (views.mkHttpResponse (views.Success (JStr "Task complete") 1) 200,
   [views.AgentInvoke "Triage the issue OPS-19";
    views.Save "Triage the issue OPS-19" (JStr "Task complete")]).
Proof. reflexivity. Qed.

(** * The client of the user interface *)

Section retries.
Import api_utils.
Variable session_request : nat -> session_call -> attempt_result.
Variable http_error_text : response -> string.
Variable self : APIClient.
Variable c : session_call.

Local Abbreviation tries := (attempts session_request http_error_text self c).

Lemma attempts_step (n : nat) (a : Z) :
  tries (S n) a =
  match session_request (Z.to_nat a) c with
  | Responds r =>
      match raise_for_status http_error_text r with
      | Ok _ => (Returns (Some r), [Request a c])
      | Err e =>
          after_failure self c a true
            ("Request failed after all retry attempts: " +:+ str_exn e) (tries n (a + 1))
      end
  | RaisesTimeout =>
      after_failure self c a false "Request timed out after all retry attempts"
        (tries n (a + 1))
  | RaisesRequestException msg =>
      after_failure self c a true
        ("Request failed after all retry attempts: " +:+ msg) (tries n (a + 1))
  | RaisesOther e => (Propagates e, [Request a c])
  end.
Proof.
  cbn [attempts]. unfold after_failure, on_timeout, on_request_exception.
  destruct (session_request (Z.to_nat a) c) as [r| |msg|e]; [| | |reflexivity].
  - destruct (raise_for_status http_error_text r); [reflexivity|].
    destruct (a =? max_retries self - 1)%Z; [reflexivity|].
    now destruct (tries n (a + 1)).
  - destruct (a =? max_retries self - 1)%Z; [reflexivity|].
    now destruct (tries n (a + 1)).
  - destruct (a =? max_retries self - 1)%Z; [reflexivity|].
    now destruct (tries n (a + 1)).
Qed.

Lemma after_failure_budget (n i : nat) (pause : bool) (msg : string)
    (next : request_outcome * list action) :
  (Z.of_nat i + Z.of_nat (S n) = max_retries self)%Z ->
  (requests_made next.2 <= n /\
   (0 <= time_slept next.2)%Z /\
   (1 <= n -> (time_slept next.2 <= 2 ^ (max_retries self - 1) - 2 ^ Z.of_nat (S i))%Z) /\
   (n = 0 -> next.2 = []) /\
   (forall m, next.1 = RaisesAPIError m -> requests_made next.2 = n)) ->
  let x := after_failure self c (Z.of_nat i) pause msg next in
  requests_made x.2 <= S n /\
  (0 <= time_slept x.2)%Z /\
  (time_slept x.2 <= 2 ^ (max_retries self - 1) - 2 ^ Z.of_nat i)%Z /\
  (forall m, x.1 = RaisesAPIError m -> requests_made x.2 = S n).
Proof.
  intros HM (Hreq & Hpos & Hsleep & Hnil & Herr). unfold after_failure.
  assert (0 < 2 ^ Z.of_nat i)%Z as Hpow by (apply Z.pow_pos_nonneg; lia).
  assert (2 ^ Z.of_nat (S i) = 2 * 2 ^ Z.of_nat i)%Z as Hsucc
    by (rewrite Nat2Z.inj_succ; apply Z.pow_succ_r; lia).
  destruct (Z.eqb_spec (Z.of_nat i) (max_retries self - 1)) as [E|E]; cbn [fst snd].
  - assert (n = 0) as -> by lia. simpl. rewrite E. repeat split; lia.
  - assert (1 <= n) as Hn by lia. specialize (Hsleep Hn).
    assert (requests_made ((if pause then [Sleep (2 ^ Z.of_nat i)] else []) ++ next.2)
            = requests_made next.2) as Hr by (now destruct pause).
    assert (time_slept ((if pause then [Sleep (2 ^ Z.of_nat i)] else []) ++ next.2)
            = (if pause then 2 ^ Z.of_nat i else 0) + time_slept next.2)%Z as Hs
      by (now destruct pause).
    cbn [requests_made time_slept]. rewrite Hr, Hs.
    split; [lia|]. split; [destruct pause; lia|]. split; [destruct pause; lia|].
    intros m Hm. rewrite (Herr m Hm). reflexivity.
Qed.

Lemma attempts_budget (n i : nat) :
  (Z.of_nat i + Z.of_nat n = max_retries self)%Z ->
  requests_made (tries n (Z.of_nat i)).2 <= n /\
  (0 <= time_slept (tries n (Z.of_nat i)).2)%Z /\
  (1 <= n ->
   (time_slept (tries n (Z.of_nat i)).2 <= 2 ^ (max_retries self - 1) - 2 ^ Z.of_nat i)%Z) /\
  (n = 0 -> (tries n (Z.of_nat i)).2 = []) /\
  (forall m, (tries n (Z.of_nat i)).1 = RaisesAPIError m ->
             requests_made (tries n (Z.of_nat i)).2 = n).
Proof.
  revert i. induction n as [|n IH]; intros i HM.
  - simpl. repeat split; try lia; try discriminate.
  - assert (Z.of_nat (S i) + Z.of_nat n = max_retries self)%Z as HM' by lia.
    specialize (IH (S i) HM').
    assert (Z.of_nat i + 1 = Z.of_nat (S i))%Z as Ei by lia.
    rewrite attempts_step, Ei.
    assert (forall pause msg,
              let x := after_failure self c (Z.of_nat i) pause msg (tries n (Z.of_nat (S i))) in
              requests_made x.2 <= S n /\
              (0 <= time_slept x.2)%Z /\
              (1 <= S n -> (time_slept x.2 <= 2 ^ (max_retries self - 1) - 2 ^ Z.of_nat i)%Z) /\
              (S n = 0 -> x.2 = []) /\
              (forall m, x.1 = RaisesAPIError m -> requests_made x.2 = S n)) as Hfail.
    { intros pause msg.
      destruct (after_failure_budget n i pause msg (tries n (Z.of_nat (S i))) HM IH)
        as (H1 & H2 & H3 & H4).
      repeat split; auto; lia. }
    assert (2 ^ Z.of_nat i <= 2 ^ (max_retries self - 1))%Z as Hle
      by (apply Z.pow_le_mono_r; lia).
    destruct (session_request (Z.to_nat (Z.of_nat i)) c) as [r| |msg|e].
    + destruct (raise_for_status http_error_text r); [|apply Hfail].
      simpl. repeat split; try lia; discriminate.
    + apply Hfail.
    + apply Hfail.
    + simpl. repeat split; try lia; discriminate.
Qed.

Lemma raise_for_status_retryable (r : response) :
  (exists e, raise_for_status http_error_text r = Err e /\ error_status r) \/
  (raise_for_status http_error_text r = Ok tt /\ ~ error_status r).
Proof.
  destruct (raise_for_status_cases http_error_text r) as [[H E]|[H E]]; eauto.
Qed.

Lemma after_failure_outcome (n i : nat) (pause : bool) (msg : string)
    (next : request_outcome * list action) :
  (Z.of_nat i + Z.of_nat (S n) = max_retries self)%Z ->
  (n = 0 /\ (after_failure self c (Z.of_nat i) pause msg next).1 = RaisesAPIError msg) \/
  (n <> 0 /\ (after_failure self c (Z.of_nat i) pause msg next).1 = next.1).
Proof.
  intros HM. unfold after_failure.
  destruct (Z.eqb_spec (Z.of_nat i) (max_retries self - 1)); [left|right];
    (split; [lia|reflexivity]).
Qed.

(** The outcome of the attempts that are left, by the first attempt
    that is not a failure to retry. *)
Lemma attempts_returns_iff (n i : nat) (r : response) :
  (Z.of_nat i + Z.of_nat n = max_retries self)%Z ->
  (tries n (Z.of_nat i)).1 = Returns (Some r) <->
  exists k,
    i <= k < i + n /\ session_request k c = Responds r /\ ~ error_status r /\
    forall j, i <= j < k -> retryable (session_request j c).
Proof.
  revert i. induction n as [|n IH]; intros i HM.
  - simpl. split; [discriminate|]. intros (k & ? & _). lia.
  - assert (Z.of_nat (S i) + Z.of_nat n = max_retries self)%Z as HM' by lia.
    specialize (IH (S i) HM').
    assert (Z.of_nat i + 1 = Z.of_nat (S i))%Z as Ei by lia.
    rewrite attempts_step, Ei, Nat2Z.id.
    assert (forall pause msg,
              retryable (session_request i c) ->
              (after_failure self c (Z.of_nat i) pause msg (tries n (Z.of_nat (S i)))).1
                = Returns (Some r) <->
              exists k,
                i <= k < i + S n /\ session_request k c = Responds r /\ ~ error_status r /\
                forall j, i <= j < k -> retryable (session_request j c)) as Hfail.
    { intros pause msg Hretry.
      destruct (after_failure_outcome n i pause msg (tries n (Z.of_nat (S i))) HM)
        as [[-> ->] | [Hn ->]].
      - split; [discriminate|]. intros (k & Hk & Hr & Hst & _).
        assert (k = i) as -> by lia. rewrite Hr in Hretry. contradiction.
      - rewrite IH. split.
        + intros (k & Hk & Hr & Hst & Hj). exists k. split; [lia|]. split; [exact Hr|].
          split; [exact Hst|]. intros j Hjk.
          destruct (decide (j = i)) as [->|Hne]; [exact Hretry|apply Hj; lia].
        + intros (k & Hk & Hr & Hst & Hj). exists k.
          assert (k <> i) as Hki by (intros ->; rewrite Hr in Hretry; contradiction).
          split; [lia|]. split; [exact Hr|]. split; [exact Hst|].
          intros j Hjk. apply Hj. lia. }
    destruct (session_request i c) as [r0| |msg|e] eqn:Hs.
    + destruct (raise_for_status_retryable r0) as [(e & -> & Hst)|[-> Hst]].
      * apply Hfail. exact Hst.
      * simpl. split.
        -- intros [= <-]. exists i. split; [lia|]. split; [exact Hs|]. split; [exact Hst|].
           intros j Hj. lia.
        -- intros (k & Hk & Hr & Hst' & Hj).
           destruct (decide (k = i)) as [->|Hne]; [congruence|].
           specialize (Hj i ltac:(lia)). rewrite Hs in Hj. contradiction.
    + apply Hfail. exact I.
    + apply Hfail. exact I.
    + simpl. split; [discriminate|]. intros (k & Hk & Hr & Hst' & Hj).
      destruct (decide (k = i)) as [->|Hne]; [congruence|].
      specialize (Hj i ltac:(lia)). rewrite Hs in Hj. contradiction.
Qed.

Lemma attempts_fails_iff (n i : nat) :
  (Z.of_nat i + Z.of_nat n = max_retries self)%Z ->
  (exists m, (tries n (Z.of_nat i)).1 = RaisesAPIError m) <->
  1 <= n /\ forall j, i <= j < i + n -> retryable (session_request j c).
Proof.
  revert i. induction n as [|n IH]; intros i HM.
  - simpl. split; [intros (m & H); discriminate|]. intros [? _]. lia.
  - assert (Z.of_nat (S i) + Z.of_nat n = max_retries self)%Z as HM' by lia.
    specialize (IH (S i) HM').
    assert (Z.of_nat i + 1 = Z.of_nat (S i))%Z as Ei by lia.
    rewrite attempts_step, Ei, Nat2Z.id.
    assert (forall pause msg,
              retryable (session_request i c) ->
              (exists m,
                  (after_failure self c (Z.of_nat i) pause msg (tries n (Z.of_nat (S i)))).1
                    = RaisesAPIError m) <->
              1 <= S n /\ forall j, i <= j < i + S n -> retryable (session_request j c))
      as Hfail.
    { intros pause msg Hretry.
      destruct (after_failure_outcome n i pause msg (tries n (Z.of_nat (S i))) HM)
        as [[-> ->] | [Hn ->]].
      - split; [|eauto]. intros _. split; [lia|]. intros j Hj.
        assert (j = i) as -> by lia. exact Hretry.
      - rewrite IH. split.
        + intros [_ Hj]. split; [lia|]. intros j Hjk.
          destruct (decide (j = i)) as [->|Hne]; [exact Hretry|apply Hj; lia].
        + intros [_ Hj]. split; [lia|]. intros j Hjk. apply Hj. lia. }
    destruct (session_request i c) as [r0| |msg|e] eqn:Hs.
    + destruct (raise_for_status_retryable r0) as [(e & -> & Hst)|[-> Hst]].
      * rewrite Hfail by exact Hst. split; intros [H1 H2]; (split; [exact H1|]); exact H2.
      * simpl. split; [intros (m & H); discriminate|]. intros [_ Hj].
        specialize (Hj i ltac:(lia)). rewrite Hs in Hj. contradiction.
    + apply Hfail. exact I.
    + apply Hfail. exact I.
    + simpl. split; [intros (m & H); discriminate|]. intros [_ Hj].
      specialize (Hj i ltac:(lia)). rewrite Hs in Hj. contradiction.
Qed.

Lemma attempts_none_iff (n i : nat) :
  (Z.of_nat i + Z.of_nat n = max_retries self)%Z ->
  (tries n (Z.of_nat i)).1 = Returns None <-> n = 0.
Proof.
  revert i. induction n as [|n IH]; intros i HM; [simpl; tauto|].
  assert (Z.of_nat (S i) + Z.of_nat n = max_retries self)%Z as HM' by lia.
  specialize (IH (S i) HM').
  assert (Z.of_nat i + 1 = Z.of_nat (S i))%Z as Ei by lia.
  rewrite attempts_step, Ei.
  assert (forall pause msg,
            (after_failure self c (Z.of_nat i) pause msg (tries n (Z.of_nat (S i)))).1
              = Returns None <-> S n = 0) as Hfail.
  { intros pause msg.
    destruct (after_failure_outcome n i pause msg (tries n (Z.of_nat (S i))) HM)
      as [[-> ->] | [Hn ->]]; [split; discriminate|].
    rewrite IH. split; [contradiction|discriminate]. }
  destruct (session_request (Z.to_nat (Z.of_nat i)) c) as [r0| |msg|e]; try apply Hfail.
  - destruct (raise_for_status http_error_text r0); [|apply Hfail].
    simpl. split; discriminate.
  - simpl. split; discriminate.
Qed.

End retries.

Section client_requests.
Import config api_utils.
Variable session_request : nat -> session_call -> attempt_result.
Variable http_error_text : response -> string.
Variable py_repr : json -> string.
Variable self : APIClient.

Local Abbreviation make_request := (_make_request session_request http_error_text self).

(** X25: one call of the client's request function makes at most
    [max_retries] requests, and exactly that many when it gives up with
    its error; it pauses for at most 2^(max_retries - 1) - 1 seconds in
    all (3 seconds with the default of 3 attempts); and with
    [max_retries] at most 0 it makes no request and returns [None]. *)
Theorem client_retry_budget (method endpoint : string) (data : option json)
    (params : list (string * Z)) :
  let x := make_request method endpoint data params in
  requests_made x.2 <= Z.to_nat (max_retries self) /\
  (0 <= time_slept x.2)%Z /\
  ((1 <= max_retries self)%Z -> (time_slept x.2 <= 2 ^ (max_retries self - 1) - 1)%Z) /\
  ((max_retries self <= 0)%Z -> x = (Returns None, [])) /\
  (forall m, x.1 = RaisesAPIError m -> requests_made x.2 = Z.to_nat (max_retries self)).
Proof.
  intros x. unfold x, _make_request.
  destruct (Z.le_gt_cases (max_retries self) 0) as [Hle|Hgt].
  - assert (Z.to_nat (max_retries self) = 0) as -> by lia. simpl.
    repeat split; try lia; discriminate.
  - match goal with |- context [attempts _ _ _ ?c _ _] =>
      destruct (attempts_budget session_request http_error_text self c
                  (Z.to_nat (max_retries self)) 0 ltac:(lia)) as (H1 & H2 & H3 & _ & H5)
    end.
    change (Z.of_nat 0) with 0%Z in *. rewrite Z.pow_0_r in H3.
    split; [exact H1|]. split; [exact H2|]. split; [intros _; apply H3; lia|].
    split; [lia|exact H5].
Qed.

(** X26: the client's request function returns a response exactly when
    some attempt, among the first [max_retries] ones, is answered with a
    status outside 400..599 after attempts that all failed in a way that
    is retried (a timeout, another request exception, or an error
    status); the response returned is that answer.  It returns [None]
    exactly when [max_retries] is at most 0. *)
Theorem client_returns_iff (method endpoint : string) (data : option json)
    (params : list (string * Z)) :
  let c := mkSessionCall method (get_django_api_url (client_config self) endpoint) data
             (timeout self) params in
  (forall r,
     (make_request method endpoint data params).1 = Returns (Some r) <->
     exists k,
       k < Z.to_nat (max_retries self) /\ session_request k c = Responds r /\
       ~ error_status r /\ forall j, j < k -> retryable (session_request j c)) /\
  ((make_request method endpoint data params).1 = Returns None <->
   (max_retries self <= 0)%Z).
Proof.
  intros c. unfold _make_request. fold c.
  destruct (Z.le_gt_cases (max_retries self) 0) as [Hle|Hgt].
  - assert (Z.to_nat (max_retries self) = 0) as -> by lia. simpl. split; [|tauto].
    intros r. split; [discriminate|]. intros (k & ? & _). lia.
  - split.
    + intros r.
      rewrite (attempts_returns_iff session_request http_error_text self c
                 (Z.to_nat (max_retries self)) 0 r ltac:(lia)).
      split; intros (k & Hk & Hr & Hst & Hj); exists k;
        (split; [lia|]); (split; [exact Hr|]); (split; [exact Hst|]);
        intros j Hjk; apply Hj; lia.
    + rewrite (attempts_none_iff session_request http_error_text self c
                 (Z.to_nat (max_retries self)) 0 ltac:(lia)). lia.
Qed.

(** X27: the client's request function gives up with its error exactly
    when there is at least one attempt and every attempt fails in a way
    that is retried. *)
Theorem client_gives_up_iff (method endpoint : string) (data : option json)
    (params : list (string * Z)) :
  let c := mkSessionCall method (get_django_api_url (client_config self) endpoint) data
             (timeout self) params in
  (exists m, (make_request method endpoint data params).1 = RaisesAPIError m) <->
  (1 <= max_retries self)%Z /\
  forall j, j < Z.to_nat (max_retries self) -> retryable (session_request j c).
Proof.
  intros c. unfold _make_request. fold c.
  destruct (Z.le_gt_cases (max_retries self) 0) as [Hle|Hgt].
  - assert (Z.to_nat (max_retries self) = 0) as -> by lia. simpl.
    split; [intros (m & H); discriminate|]. intros [? _]. lia.
  - rewrite (attempts_fails_iff session_request http_error_text self c
               (Z.to_nat (max_retries self)) 0 ltac:(lia)).
    split; intros [_ Hj]; (split; [lia|]); intros j Hjk; apply Hj; lia.
Qed.


End client_requests.

(** With the default settings, one refused connection costs a pause of
    one second, and the answer of the second attempt is returned. *)
Example client_retries_once :
  api_utils._make_request (flaky_backend (mkResponse 200 None)) error_text sample_client
    "GET" "/health-check/" None [] =
  (api_utils.Returns (Some (mkResponse 200 None)),
   [api_utils.Request 0
      (api_utils.mkSessionCall "GET" "http://localhost:8000/api/health-check/" None 30 []);
    api_utils.Sleep 1;
    api_utils.Request 1
      (api_utils.mkSessionCall "GET" "http://localhost:8000/api/health-check/" None 30 [])]).
Proof. reflexivity. Qed.

(** * Repeated triage runs *)

Section repeated_runs.
Variable W : world.




End repeated_runs.
